(** * gamdl-server: job orchestration and result cache of [server.js]

    A shallow embedding of the Express/Bull/Redis download server and the
    proofs of the properties its specification states about it.

    What is modelled, and how:
    - JavaScript strings are [string]s whose characters are the UTF-16 code
      units below 256 (ASCII and Latin-1); [trim], [toLowerCase],
      [includes] and [endsWith] follow ECMAScript on that range.
    - The request body's [url] is any JSON value ([jsval]), since
      [express.json()] hands over whatever the client posted.
    - Redis, the in-memory [jobResults] map and the [downloads/] directory
      are finite maps; Bull's queue is its four job lists; pending
      [setTimeout] callbacks are a list of timers; [uuidv4()] draws from an
      arbitrary sequence; [Date.now()] reads a clock held in the state.
    - An [async] handler with [try]/[catch] is a computation in the monad
      [M]: it threads the state and either returns or throws, and what it
      did to the state before throwing stays done.
    - Every call a handler makes to Redis or to the queue is appended to a
      log, so that "the cache was not consulted" can be stated.

    - The workers behind [downloadQueue.process] are a pool of idle or
      busy workers, as the specification describes them; Bull's own code
      is not part of the repository.

    Outside the model: an unreachable Redis (the stores always answer), the
    order in which Bull serves the workers and its recovery of stalled
    jobs, and path segments [..] (job ids are UUIDs and file names come
    from [readdir]). *)

From Stdlib Require Import ZArith Lia Ascii String List Bool.
From stdpp Require Import base option gmap strings list fin_maps.
From Stdlib Require Import QArith Lqa.

Local Open Scope string_scope.
Local Open Scope Z_scope.

(** ** JavaScript string primitives *)

Module JsString.

(** Code unit of a character. *)
Definition code (c : ascii) : N := N_of_ascii c.

(** ECMAScript WhiteSpace and LineTerminator code points below 256:
    TAB, LF, VT, FF, CR, SPACE and NO-BREAK SPACE. *)
Definition isWhiteSpace (c : ascii) : bool :=
  let n := code c in
  ((9 <=? n) && (n <=? 13) || (n =? 32) || (n =? 160))%N.

(** Letters with a lower-case partner: A-Z and the Latin-1 capitals
    U+00C0..U+00DE except the multiplication sign U+00D7. *)
Definition isUpper (c : ascii) : bool :=
  let n := code c in
  ((65 <=? n) && (n <=? 90)
   || (192 <=? n) && (n <=? 222) && negb (n =? 215))%N.

(** Letters with an upper-case partner below 256: a-z and U+00E0..U+00FE
    except the division sign U+00F7. *)
Definition isLower (c : ascii) : bool :=
  let n := code c in
  ((97 <=? n) && (n <=? 122)
   || (224 <=? n) && (n <=? 254) && negb (n =? 247))%N.

Definition lowerChar (c : ascii) : ascii :=
  if isUpper c then ascii_of_N (code c + 32) else c.

Definition upperChar (c : ascii) : ascii :=
  if isLower c then ascii_of_N (code c - 32) else c.

(** [String.prototype.toLowerCase] *)
Fixpoint toLowerCase (s : string) : string :=
  match s with
  | EmptyString => EmptyString
  | String c r => String (lowerChar c) (toLowerCase r)
  end.

(** [String.prototype.trimStart] *)
Fixpoint trimStart (s : string) : string :=
  match s with
  | EmptyString => EmptyString
  | String c r => if isWhiteSpace c then trimStart r else s
  end.

Definition isEmpty (s : string) : bool :=
  match s with EmptyString => true | String _ _ => false end.

(** [String.prototype.trimEnd] *)
Fixpoint trimEnd (s : string) : string :=
  match s with
  | EmptyString => EmptyString
  | String c r =>
      let r' := trimEnd r in
      if isWhiteSpace c && isEmpty r' then EmptyString else String c r'
  end.

(** [String.prototype.trim] *)
Definition trim (s : string) : string := trimEnd (trimStart s).

(** [s.startsWith(p)] *)
Fixpoint startsWith (s p : string) : bool :=
  match p, s with
  | EmptyString, _ => true
  | String _ _, EmptyString => false
  | String a p', String b s' => if ascii_dec a b then startsWith s' p' else false
  end.

(** [s.includes(p)]: [p] starts at some position of [s]. *)
Fixpoint includes (s p : string) : bool :=
  startsWith s p ||
  match s with
  | EmptyString => false
  | String _ r => includes r p
  end.

(** [s.endsWith(p)]: the last [p.length] code units of [s] are [p]. *)
Definition endsWith (s p : string) : bool :=
  let ls := String.length s in
  let lp := String.length p in
  (lp <=? ls)%nat && String.eqb (String.substring (ls - lp) lp s) p.

(** A string made of white space only. *)
Fixpoint allWhiteSpace (s : string) : bool :=
  match s with
  | EmptyString => true
  | String c r => isWhiteSpace c && allWhiteSpace r
  end.

(** Re-casing: flip the case of the letters selected by a mask. Every
    way of changing the letter case of a string is [recase m] for some
    mask [m]. *)
Definition flipChar (c : ascii) : ascii :=
  if isUpper c then lowerChar c else upperChar c.

Fixpoint recase (mask : list bool) (s : string) {struct s} : string :=
  match s with
  | EmptyString => EmptyString
  | String c r =>
      match mask with
      | [] => s
      | b :: m => String (if b then flipChar c else c) (recase m r)
      end
  end.

End JsString.

(** ** Data model *)

(** A JSON value, as [express.json()] delivers [req.body.url].
    [JUndefined] is the missing key. Numbers are integers here: the handler
    only ever tests a number for being zero. *)
#[local] Unset Elimination Schemes.
Inductive jsval : Type :=
| JUndefined
| JNull
| JBool (b : bool)
| JNum (n : Z)
| JStr (s : string)
| JArr (elems : list jsval)
| JObj (fields : list (string * jsval)).
#[local] Set Elimination Schemes.

(** What a worker returns: [{ success: true, fileUrl, fileName, jobId }]. *)
Record JobResult := mkJobResult {
  success : bool;
  fileUrl : string;
  fileName : string;
  jobId : string
}.

(** What is stored in Redis: [{ ...result, cachedAt }]. [cachedAt] is the
    clock reading whose ISO rendering the source stores. *)
Record CacheRecord := mkCacheRecord {
  c_success : bool;
  c_fileUrl : string;
  c_fileName : string;
  c_jobId : string;
  c_cachedAt : Z
}.

(** [job.data] of a Bull job: [{ url, jobId }]. *)
Record Job := mkJob {
  j_url : jsval;
  j_jobId : string
}.

(** Values of the [jobResults] map. *)
Inductive JobOutcome : Type :=
| OutcomeCompleted (result : JobResult)
| OutcomeFailed (error : string).

(** A directory listing, as [readdir(dir, { withFileTypes: true })] returns
    it: in order, each entry a directory or not. *)
#[local] Unset Elimination Schemes.
Inductive entry : Type :=
| File (name : string)
| Dir (name : string) (children : list entry).
#[local] Set Elimination Schemes.

Definition entryName (e : entry) : string :=
  match e with File n => n | Dir n _ => n end.

(** Callbacks handed to [setTimeout]. *)
Inductive TimerAction : Type :=
| DeleteDownloads (jobId : string)   (* scheduleFileDeletion's callback *)
| ForgetResult (jobId : string).     (* jobResults.delete(jobId) *)

Record Timer := mkTimer {
  due : Z;
  action : TimerAction
}.

(** Calls to the backing services, in the order they were made. *)
Inductive Event : Type :=
| RedisGet (key : string)
| RedisSetex (key : string) (seconds : Z) (value : CacheRecord)
| RedisDel (key : string)
| QueueAdd (job : Job)
| QueueObliterate
| Pkill.

Record State := mkState {
  now : Z;                                  (* Date.now(), milliseconds *)
  redis : gmap string (CacheRecord * Z);    (* value and expiry instant *)
  disk : gmap string (list entry);          (* downloads/<jobId>/ *)
  jobResults : gmap string JobOutcome;
  waiting : list Job;
  active : list Job;
  completed : list (Job * JobResult);       (* with job.returnvalue *)
  failed : list (Job * string);             (* with job.failedReason *)
  timers : list Timer;
  uuidSource : nat -> string;               (* what the n-th uuidv4() returns *)
  uuidsDrawn : nat;                         (* calls to uuidv4() so far *)
  env_BASE_URL : option string;             (* process.env.BASE_URL *)
  log : list Event
}.

Definition set_redis (f : gmap string (CacheRecord * Z) -> gmap string (CacheRecord * Z)) (st : State) : State :=
  mkState (now st) (f (redis st)) (disk st) (jobResults st) (waiting st) (active st)
          (completed st) (failed st) (timers st) (uuidSource st) (uuidsDrawn st) (env_BASE_URL st) (log st).

Definition set_disk (f : gmap string (list entry) -> gmap string (list entry)) (st : State) : State :=
  mkState (now st) (redis st) (f (disk st)) (jobResults st) (waiting st) (active st)
          (completed st) (failed st) (timers st) (uuidSource st) (uuidsDrawn st) (env_BASE_URL st) (log st).

Definition set_jobResults (f : gmap string JobOutcome -> gmap string JobOutcome) (st : State) : State :=
  mkState (now st) (redis st) (disk st) (f (jobResults st)) (waiting st) (active st)
          (completed st) (failed st) (timers st) (uuidSource st) (uuidsDrawn st) (env_BASE_URL st) (log st).

Definition set_queue (w a : list Job) (c : list (Job * JobResult))
    (f : list (Job * string)) (st : State) : State :=
  mkState (now st) (redis st) (disk st) (jobResults st) w a c f
          (timers st) (uuidSource st) (uuidsDrawn st) (env_BASE_URL st) (log st).

Definition set_timers (f : list Timer -> list Timer) (st : State) : State :=
  mkState (now st) (redis st) (disk st) (jobResults st) (waiting st) (active st)
          (completed st) (failed st) (f (timers st)) (uuidSource st) (uuidsDrawn st) (env_BASE_URL st) (log st).

Definition set_uuidsDrawn (n : nat) (st : State) : State :=
  mkState (now st) (redis st) (disk st) (jobResults st) (waiting st) (active st)
          (completed st) (failed st) (timers st) (uuidSource st) n (env_BASE_URL st) (log st).

Definition set_now (t : Z) (st : State) : State :=
  mkState t (redis st) (disk st) (jobResults st) (waiting st) (active st)
          (completed st) (failed st) (timers st) (uuidSource st) (uuidsDrawn st) (env_BASE_URL st) (log st).

Definition emit (e : Event) (st : State) : State :=
  mkState (now st) (redis st) (disk st) (jobResults st) (waiting st) (active st)
          (completed st) (failed st) (timers st) (uuidSource st) (uuidsDrawn st) (env_BASE_URL st) (log st ++ [e]).

(** ** The monad of handlers *)

Inductive Completion (A : Type) : Type :=
| Return (a : A)
| Throw (message : string).
Arguments Return {A} a.
Arguments Throw {A} message.

Definition M (A : Type) : Type := State -> Completion A * State.

#[export] Instance M_ret : MRet M := fun A a st => (Return a, st).

#[export] Instance M_bind : MBind M := fun A B f m st =>
  match m st with
  | (Return a, st') => f a st'
  | (Throw e, st') => (Throw e, st')
  end.

Definition throw {A} (message : string) : M A := fun st => (Throw message, st).

(** [try { body } catch (error) { handler(error.message) }] *)
Definition tryCatch {A} (body : M A) (handler : string -> M A) : M A := fun st =>
  match body st with
  | (Return a, st') => (Return a, st')
  | (Throw e, st') => handler e st'
  end.

Definition gets {A} (f : State -> A) : M A := fun st => (Return (f st), st).
Definition modify (f : State -> State) : M unit := fun st => (Return tt, f st).

(** ** Primitives: clock, Redis, queue, result map, timers, files *)

(** [new Date()] *)
Definition date_now : M Z := gets now.

(** [redisClient.get(key)]: the stored value, or [None] (JavaScript [null])
    when the key is absent or its expiry instant has passed. Redis keeps a
    key up to and including its expiry instant. *)
Definition redis_lookup (key : string) (st : State) : option CacheRecord :=
  match redis st !! key with
  | Some (value, expiresAt) => if now st <=? expiresAt then Some value else None
  | None => None
  end.

Definition redis_get (key : string) : M (option CacheRecord) := fun st =>
  (Return (redis_lookup key st), emit (RedisGet key) st).

(** [redisClient.setex(key, seconds, value)] *)
Definition redis_setex (key : string) (seconds : Z) (value : CacheRecord) : M unit :=
  modify (fun st =>
    emit (RedisSetex key seconds value)
         (set_redis (insert key (value, now st + seconds * 1000)) st)).

(** [redisClient.del(key)] *)
Definition redis_del (key : string) : M unit :=
  modify (fun st => emit (RedisDel key) (set_redis (delete key) st)).

(** [downloadQueue.add(data)]: the job joins the waiting list. *)
Definition queue_add (job : Job) : M unit :=
  modify (fun st =>
    emit (QueueAdd job)
         (set_queue (waiting st ++ [job]) (active st) (completed st) (failed st) st)).

(** [downloadQueue.obliterate({ force: true })] *)
Definition queue_obliterate : M unit :=
  modify (fun st => emit QueueObliterate (set_queue [] [] [] [] st)).

Definition jobResults_set (id : string) (o : JobOutcome) : M unit :=
  modify (set_jobResults (insert id o)).

Definition jobResults_delete (id : string) : M unit :=
  modify (set_jobResults (delete id)).

Definition jobResults_clear : M unit :=
  modify (set_jobResults (fun _ => ∅)).

(** Node's [setTimeout(callback, delay)]: a delay below 1 or above
    [TIMEOUT_MAX] = 2^31 - 1 is replaced by 1. *)
Definition TIMEOUT_MAX : Z := 2147483647.

Definition timerDelay (delayMs : Z) : Z :=
  if (1 <=? delayMs) && (delayMs <=? TIMEOUT_MAX) then delayMs else 1.

Definition setTimeout (callback : TimerAction) (delayMs : Z) : M unit :=
  modify (fun st =>
    set_timers (fun ts => (ts ++ [mkTimer (now st + timerDelay delayMs) callback])%list) st).

(** [path.join(a, b)] for a directory name and a relative path below it.
    Names come from [readdir] and hold no separator. *)
Definition pathJoin (a b : string) : string := a ++ "/" ++ b.

(** The segments of a relative path: split at [/], empty and [.] segments
    dropped, as [path.join] normalises them away. *)
Fixpoint splitOn (sep : ascii) (s : string) : list string :=
  match s with
  | EmptyString => [EmptyString]
  | String c r =>
      if ascii_dec c sep then EmptyString :: splitOn sep r
      else match splitOn sep r with
           | [] => [String c EmptyString]
           | h :: t => String c h :: t
           end
  end.

Definition segments (p : string) : list string :=
  List.filter (fun seg => negb (String.eqb seg "" || String.eqb seg ".")) (splitOn "/" p).

(** Does the path with these segments lead somewhere below a directory with
    this listing? *)
Fixpoint resolves (dir : list entry) (segs : list string) : bool :=
  match segs with
  | [] => true
  | seg :: rest =>
      match List.find (fun e => String.eqb (entryName e) seg) dir with
      | Some (File _) => match rest with [] => true | _ :: _ => false end
      | Some (Dir _ children) => resolves children rest
      | None => false
      end
  end.

(** [fs.access(path.join(__dirname, 'downloads', jobId, fileName))] succeeds. *)
Definition fs_exists (id fileName : string) (st : State) : bool :=
  match disk st !! id with
  | Some dir => resolves dir (segments fileName)
  | None => false
  end.

(** [fs.mkdir(outputDir, { recursive: true })] *)
Definition fs_mkdir (id : string) : M unit :=
  modify (fun st =>
    match disk st !! id with
    | Some _ => st
    | None => set_disk (insert id []) st
    end).

(** [fs.rm(outputDir, { recursive: true, force: true })] *)
Definition fs_rm (id : string) : M unit :=
  modify (set_disk (delete id)).

(** ** [server.js] *)

Import JsString.

Definition CACHE_TTL_DAYS : Z := 3.
Definition CACHE_TTL_SECONDS : Z := CACHE_TTL_DAYS * 24 * 60 * 60.

(** [uuidv4()] *)
Definition uuidv4 : M string := fun st =>
  (Return (uuidSource st (uuidsDrawn st)), set_uuidsDrawn (S (uuidsDrawn st)) st).

(** [process.env.BASE_URL || 'http://localhost:3000'] *)
Definition baseUrl (st : State) : string :=
  match env_BASE_URL st with
  | Some s => if isEmpty s then "http://localhost:3000" else s
  | None => "http://localhost:3000"
  end.

(** [url.trim().toLowerCase()], the normalisation inside [getCacheKey]. *)
Definition normalize (url : string) : string := toLowerCase (trim url).

(** [getCacheKey(url)] on a string. *)
Definition getCacheKey (url : string) : string := "cache:url:" ++ normalize url.

(** [getCacheKey(url)] on any value: [url.trim] exists on strings only. *)
Definition getCacheKey_js (url : jsval) : M string :=
  match url with
  | JStr s => mret (getCacheKey s)
  | JUndefined => throw "Cannot read properties of undefined (reading 'trim')"
  | JNull => throw "Cannot read properties of null (reading 'trim')"
  | _ => throw "url.trim is not a function"
  end.

(** [scheduleFileDeletion(jobId, delayMs)] *)
Definition scheduleFileDeletion (id : string) (delayMs : Z) : M unit :=
  setTimeout (DeleteDownloads id) delayMs.

(** [cacheFilesExist(jobId, fileName)]: [true] when [fs.access] succeeds,
    [false] when it throws. *)
Definition cacheFilesExist (id fileName : string) : M bool :=
  gets (fs_exists id fileName).

(** [findM4aFiles(dir)], on the listing of [dir]. [findM4aIn] is the body
    of its loop for one directory entry. *)
Fixpoint findM4aIn (file : entry) : list string :=
  match file with
  | Dir name children => List.map (pathJoin name) (List.flat_map findM4aIn children)
  | File name => if endsWith name ".m4a" then [name] else []
  end.

Definition findM4aFiles (dir : list entry) : list string :=
  List.flat_map findM4aIn dir.

(** One run of the external producer [gamdl], as [execAsync] reports it:
    how the promise settles (it rejects on a non-zero exit, on the 10 minute
    timeout and on an overflow of the output buffer) and what the output
    directory holds afterwards. *)
Inductive ExecResult : Type :=
| Exited0
| ExecRejected (message : string).

Record ProducerRun := mkProducerRun {
  settled : ExecResult;
  leftInDir : list entry
}.

Definition execAsync_gamdl (id : string) (run : ProducerRun) : M unit := fun st =>
  let st' := set_disk (insert id (leftInDir run)) st in
  match settled run with
  | Exited0 => (Return tt, st')
  | ExecRejected e => (Throw e, st')
  end.

(** [fs.readdir(outputDir, ...)] at the top of [findM4aFiles]. *)
Definition readdir (id : string) : M (list entry) := fun st =>
  match disk st !! id with
  | Some dir => (Return dir, st)
  | None => (Throw "ENOENT: no such file or directory", st)
  end.

(** The processor given to [downloadQueue.process]. *)
Definition processor (job : Job) (run : ProducerRun) : M JobResult :=
  let id := j_jobId job in
  tryCatch
    (fs_mkdir id;;
     execAsync_gamdl id run;;
     dir ← readdir id;
     match findM4aFiles dir with
     | [] => throw "No M4A file found after download"
     | fileName :: _ =>
         base ← gets baseUrl;
         mret {| success := true;
                 fileUrl := base ++ "/downloads/" ++ id ++ "/" ++ fileName;
                 fileName := fileName;
                 jobId := id |}
     end)
    (fun error => throw error).

(** [{ ...result, cachedAt }] *)
Definition cacheRecordOf (result : JobResult) (cachedAt : Z) : CacheRecord :=
  {| c_success := success result;
     c_fileUrl := fileUrl result;
     c_fileName := fileName result;
     c_jobId := jobId result;
     c_cachedAt := cachedAt |}.

(** [downloadQueue.on('completed', ...)] *)
Definition onCompleted (job : Job) (result : JobResult) : M unit :=
  jobResults_set (j_jobId job) (OutcomeCompleted result);;
  tryCatch
    (cacheKey ← getCacheKey_js (j_url job);
     cachedAt ← date_now;
     redis_setex cacheKey CACHE_TTL_SECONDS (cacheRecordOf result cachedAt);;
     scheduleFileDeletion (j_jobId job) (CACHE_TTL_SECONDS * 1000))
    (fun _ => mret tt);;
  setTimeout (ForgetResult (j_jobId job)) 3600000.

(** [downloadQueue.on('failed', ...)] *)
Definition onFailed (job : Job) (message : string) : M unit :=
  jobResults_set (j_jobId job) (OutcomeFailed message);;
  setTimeout (ForgetResult (j_jobId job)) 3600000.

(** Bull, once a worker has taken [job]: it runs the processor, files the
    job under completed with the value returned, or under failed with the
    message thrown (a job is attempted once: no [attempts] option is
    given), and emits the event. *)
Definition withoutJob (id : string) (jobs : list Job) : list Job :=
  List.filter (fun j => negb (String.eqb (j_jobId j) id)) jobs.

Definition moveToCompleted (job : Job) (returnvalue : JobResult) : M unit :=
  modify (fun st =>
    set_queue (waiting st) (withoutJob (j_jobId job) (active st))
              (completed st ++ [(job, returnvalue)]) (failed st) st).

Definition moveToFailed (job : Job) (failedReason : string) : M unit :=
  modify (fun st =>
    set_queue (waiting st) (withoutJob (j_jobId job) (active st))
              (completed st) (failed st ++ [(job, failedReason)]) st).

(** Bull hands the oldest waiting job to a worker; when it does so is
    Bull's decision. *)
Definition takeNext : M (option Job) := fun st =>
  match waiting st with
  | [] => (Return None, st)
  | job :: rest =>
      (Return (Some job),
       set_queue rest (active st ++ [job]) (completed st) (failed st) st)
  end.

Definition runJob (job : Job) (run : ProducerRun) : M unit := fun st =>
  match processor job run st with
  | (Return result, st') => (moveToCompleted job result;; onCompleted job result) st'
  | (Throw message, st') => (moveToFailed job message;; onFailed job message) st'
  end.

(** *** Routes *)

(** JavaScript truthiness, for [!url]. *)
Definition truthy (v : jsval) : bool :=
  match v with
  | JUndefined | JNull => false
  | JBool b => b
  | JNum n => negb (n =? 0)
  | JStr s => negb (isEmpty s)
  | JArr _ | JObj _ => true
  end.

(** [url.includes(needle)]: a substring test on a string, a membership test
    on an array, and a [TypeError] on every other truthy value. *)
Definition isStr (needle : string) (v : jsval) : bool :=
  match v with JStr s => String.eqb s needle | _ => false end.

Definition js_includes (url : jsval) (needle : string) : M bool :=
  match url with
  | JStr s => mret (includes s needle)
  | JArr elems => mret (List.existsb (isStr needle) elems)
  | JUndefined => throw "Cannot read properties of undefined (reading 'includes')"
  | JNull => throw "Cannot read properties of null (reading 'includes')"
  | _ => throw "url.includes is not a function"
  end.

(** The two checks of [POST /api/download] on a string: [!url] and
    [!url.includes('music.apple.com')] are both false. *)
Definition passesValidation (url : string) : bool :=
  negb (isEmpty url) && includes url "music.apple.com".

(** The bodies [res.json] sends from [POST /api/download]. *)
Inductive DownloadResponse : Type :=
| Rejected (status : Z) (error : string)
| FromCache (jobId : string) (cachedAt : Z) (result : JobResult) (statusUrl : string)
| Queued (jobId : string) (statusUrl : string).

Definition statusUrlOf (id : string) : string := "/api/status/" ++ id.

(** [app.post('/api/download', ...)], with [url] = [req.body.url]. *)
Definition post_download (url : jsval) : M DownloadResponse :=
  tryCatch
    (if negb (truthy url) then mret (Rejected 400 "URL is required")
     else
       found ← js_includes url "music.apple.com";
       if negb found then mret (Rejected 400 "Invalid Apple Music URL")
       else
         cacheKey ← getCacheKey_js url;
         cachedResult ← redis_get cacheKey;
         served ← match cachedResult with
                  | Some cached =>
                      filesExist ← cacheFilesExist (c_jobId cached) (c_fileName cached);
                      if (filesExist : bool) then
                        mret (Some (FromCache (c_jobId cached) (c_cachedAt cached)
                                      {| success := c_success cached;
                                         fileUrl := c_fileUrl cached;
                                         fileName := c_fileName cached;
                                         jobId := c_jobId cached |}
                                      (statusUrlOf (c_jobId cached))))
                      else
                        redis_del cacheKey;; mret None
                  | None => mret None
                  end;
         match served with
         | Some response => mret response
         | None =>
             id ← uuidv4;
             queue_add {| j_url := url; j_jobId := id |};;
             mret (Queued id (statusUrlOf id))
         end)
    (fun message => mret (Rejected 500 message)).

(** [{ waiting, active, completed, failed, total }] *)
Record QueueStats := mkQueueStats {
  s_waiting : nat;
  s_active : nat;
  s_completed : nat;
  s_failed : nat;
  s_total : nat
}.

Definition getCounts : M QueueStats :=
  gets (fun st =>
    let w := length (waiting st) in
    let a := length (active st) in
    let c := length (completed st) in
    let f := length (failed st) in
    mkQueueStats w a c f (w + a + c + f)%nat).

(** What a route without a validation step sends: its body, or the
    status 500 of its [catch] block. *)
Inductive Reply (A : Type) : Type :=
| Ok (body : A)
| ServerError (status : Z) (message : string).
Arguments Ok {A} body.
Arguments ServerError {A} status message.

(** [app.get('/api/queue/stats', ...)] *)
Definition get_queue_stats : M (Reply QueueStats) :=
  tryCatch
    (stats ← getCounts;
     mret (Ok stats))
    (fun message => mret (ServerError 500 message)).

(** [pkill -9 -f gamdl], its failure ignored. *)
Definition pkill : M unit := modify (emit Pkill).

Fixpoint forEach {A} (xs : list A) (body : A -> M unit) : M unit :=
  match xs with
  | [] => mret tt
  | x :: rest => body x;; forEach rest body
  end.

(** The body sent by [POST /api/queue/clear]: the counts before clearing
    and the number of forgotten job results. *)
Record Cleared := mkCleared {
  cleared : QueueStats;
  cachedResults : nat
}.

(** [app.post('/api/queue/clear', ...)] *)
Definition post_queue_clear : M (Reply Cleared) :=
  tryCatch
    (counts ← getCounts;
     activeJobs ← gets active;
     forEach activeJobs (fun _ => pkill);;
     queue_obliterate;;
     cachedResultsCount ← gets (fun st => size (jobResults st));
     jobResults_clear;;
     mret (Ok (mkCleared counts cachedResultsCount)))
    (fun message => mret (ServerError 500 message)).

(** The bodies sent by [GET /api/status/:jobId]: the entry of the result
    map, or the state of the job in the queue with its return value or
    failure reason, or an error with its status (404 for an unknown job). *)
Inductive StatusResponse : Type :=
| Tracked (outcome : JobOutcome)
| InQueue (state : string) (result : option JobResult) (error : option string)
| StatusError (status : Z) (error : string).

Definition hasJob (id : string) (jobs : list Job) : bool :=
  List.existsb (fun j => String.eqb (j_jobId j) id) jobs.

Definition findJob {A} (id : string) (jobs : list (Job * A)) : option A :=
  option_map snd (List.find (fun ja => String.eqb (j_jobId (fst ja)) id) jobs).

(** [app.get('/api/status/:jobId', ...)]: the result map first, then the
    jobs of the queue, waiting, active, completed and failed in that
    order. *)
Definition get_status (id : string) : M StatusResponse :=
  tryCatch
    (gets (fun st =>
      match jobResults st !! id with
      | Some outcome => Tracked outcome
      | None =>
          if hasJob id (waiting st) then InQueue "waiting" None None
          else if hasJob id (active st) then InQueue "active" None None
          else match findJob id (completed st) with
               | Some returnvalue => InQueue "completed" (Some returnvalue) None
               | None =>
                   match findJob id (failed st) with
                   | Some failedReason => InQueue "failed" None (Some failedReason)
                   | None => StatusError 404 "Job not found"
                   end
               end
      end))
    (fun message => mret (StatusError 500 message)).

(** *** Timers *)

(** The callback of a timer. *)
Definition fire (t : Timer) : M unit :=
  match action t with
  | DeleteDownloads id => fs_rm id
  | ForgetResult id => jobResults_delete id
  end.

(** Time passes: the clock advances and the timers that are due run. *)
Definition elapse (ms : Z) : M unit := fun st =>
  let st1 := set_now (now st + ms) st in
  let dueNow := List.filter (fun t => due t <=? now st1) (timers st1) in
  let later := List.filter (fun t => negb (due t <=? now st1)) (timers st1) in
  forEach dueNow fire (set_timers (fun _ => later) st1).

(** ** Vocabulary of the specification, in terms of the code *)

(** The produced files a cache record lists: the one [fileName] it stores. *)
Definition producedFiles (c : CacheRecord) : list string := [c_fileName c].

(** A record is valid when each of its produced files, resolved under its
    job's directory, exists. *)
Definition valid (c : CacheRecord) (st : State) : bool :=
  List.forallb (fun p => fs_exists (c_jobId c) p st) (producedFiles c).

(** The result a cache record carries. *)
Definition resultOf (c : CacheRecord) : JobResult :=
  {| success := c_success c; fileUrl := c_fileUrl c;
     fileName := c_fileName c; jobId := c_jobId c |}.

(** Every file below a directory, in enumeration order, as the pair of its
    path relative to the directory and its own name. *)
Fixpoint filesIn (file : entry) : list (string * string) :=
  match file with
  | Dir name children =>
      List.map (fun pn => (pathJoin name (fst pn), snd pn)) (List.flat_map filesIn children)
  | File name => [(name, name)]
  end.

Definition depositedFiles (dir : list entry) : list (string * string) :=
  List.flat_map filesIn dir.

Definition isM4a (pn : string * string) : bool := endsWith (snd pn) ".m4a".

(** The state a handler leaves, and what it answers. *)
Definition stateAfter {A} (m : M A) (st : State) : State := snd (m st).
Definition answer {A} (m : M A) (st : State) : Completion A := fst (m st).

(** The artifact directory of a job disappears behind the server's back. *)
Definition deletedExternally (id : string) (st : State) : State :=
  set_disk (delete id) st.

(** The state after a submission that found nothing to serve. *)
Definition enqueued (url : string) (st : State) : State :=
  let id := uuidSource st (uuidsDrawn st) in
  let st1 := set_uuidsDrawn (S (uuidsDrawn st)) st in
  emit (QueueAdd (mkJob (JStr url) id))
       (set_queue (waiting st1 ++ [mkJob (JStr url) id]) (active st1)
                  (completed st1) (failed st1) st1).

(** The state the processor leaves: the output directory holds what the
    producer left there, nothing else has changed. *)
Definition afterRun (job : Job) (run : ProducerRun) (st : State) : State :=
  set_disk (fun _ => <[j_jobId job := leftInDir run]> (disk st)) st.

(** The result the processor builds from the first file found. *)
Definition resultFor (job : Job) (first : string) (st : State) : JobResult :=
  {| success := true;
     fileUrl := baseUrl st ++ "/downloads/" ++ j_jobId job ++ "/" ++ first;
     fileName := first;
     jobId := j_jobId job |}.

(** The state with its log replaced. *)
Definition withLog (l : list Event) (st : State) : State :=
  mkState (now st) (redis st) (disk st) (jobResults st) (waiting st) (active st)
          (completed st) (failed st) (timers st) (uuidSource st) (uuidsDrawn st)
          (env_BASE_URL st) l.

(** What the specification says of a submission that meets a stale entry:
    the entry is invalidated, the caller gets no error, and a job with a
    newly drawn id is queued. *)
Definition staleFallsThrough (url : string) (st : State) : Prop :=
  forall c,
    redis_lookup (getCacheKey url) st = Some c ->
    valid c st = false ->
    let id := uuidSource st (uuidsDrawn st) in
    let st' := stateAfter (post_download (JStr url)) st in
    redis_lookup (getCacheKey url) st' = None
    /\ answer (post_download (JStr url)) st = Return (Queued id (statusUrlOf id))
    /\ waiting st' = (waiting st ++ [mkJob (JStr url) id])%list
    /\ uuidsDrawn st' = S (uuidsDrawn st).

(** ** Histories *)

(** What can happen to the server, one thing at a time: a request to one
    of its routes, Bull handing a job to a worker, a worker finishing a job
    with some run of the producer, time passing, and somebody deleting a
    job's directory. *)
Inductive Op : Type :=
| OpSubmit (url : jsval)
| OpStatus (id : string)
| OpStats
| OpClear
| OpTake
| OpRun (job : Job) (run : ProducerRun)
| OpElapse (ms : Z)
| OpDeleteDir (id : string).

Definition perform (op : Op) : State -> State :=
  match op with
  | OpSubmit url => stateAfter (post_download url)
  | OpStatus id => stateAfter (get_status id)
  | OpStats => stateAfter get_queue_stats
  | OpClear => stateAfter post_queue_clear
  | OpTake => stateAfter takeNext
  | OpRun job run => stateAfter (runJob job run)
  | OpElapse ms => stateAfter (elapse ms)
  | OpDeleteDir id => deletedExternally id
  end.

Definition performAll (ops : list Op) (st : State) : State :=
  List.fold_left (fun st op => perform op st) ops st.

(** The run lets the processor return: the producer exits with 0 and a
    file ending in [.m4a] is found. *)
Definition succeeds (run : ProducerRun) : bool :=
  match settled run, findM4aFiles (leftInDir run) with
  | Exited0, _ :: _ => true
  | _, _ => false
  end.

(** The step is a job with this id completing. *)
Definition completesJob (id : string) (op : Op) : bool :=
  match op with
  | OpRun job run => String.eqb (j_jobId job) id && succeeds run
  | _ => false
  end.

(** Some record in the cache store, live or not, carries this job id. *)
Definition cachedFor (id : string) (st : State) : Prop :=
  map_Exists (fun _ entry => c_jobId (fst entry) = id) (redis st).

(** ** A sample run of the server *)

Module Sample.

Definition uuids (n : nat) : string :=
  nth n ["3f2a6c1e-0b7d-4e52-9a55-1c7f0d2b8e01";
         "9b1c44d0-5e3a-4f0b-8c21-7a6e2f4d9b02"]
        "c0ffee00-0000-4000-8000-000000000003".

(** The server just started: empty stores, clock at 0. *)
Definition boot : State :=
  mkState 0 ∅ ∅ ∅ [] [] [] [] [] uuids 0%nat None [].

Definition url : string := "https://music.apple.com/us/album/x/1?i=2".

(** The same url, typed with capitals and spaces around it. *)
Definition shouted : string := "  HTTPS://music.apple.com/US/album/x/1?i=2 ".

(** The same url, with the host in capitals. *)
Definition capitals : string := "https://MUSIC.APPLE.COM/us/album/x/1?i=2".

Definition job : Job := mkJob (JStr url) (uuids 0).

(** What the job yields on [goodRun], and the record cached for it. *)
Definition result : JobResult :=
  {| success := true;
     fileUrl := "http://localhost:3000/downloads/3f2a6c1e-0b7d-4e52-9a55-1c7f0d2b8e01/Artist/Album/01 Song.m4a";
     fileName := "Artist/Album/01 Song.m4a";
     jobId := uuids 0 |}.

Definition record : CacheRecord := cacheRecordOf result 0.

(** [gamdl] exits with 0 and leaves a cover and two tracks. *)
Definition goodRun : ProducerRun :=
  mkProducerRun Exited0
    [File "cover.jpg";
     Dir "Artist" [Dir "Album" [File "01 Song.m4a"; File "02 Other.m4a"]]].

(** [gamdl] exits with 0 and leaves nothing but empty directories. *)
Definition noOutput : ProducerRun :=
  mkProducerRun Exited0 [Dir "Artist" [Dir "Album" []]].

(** [gamdl] exits with 0 and leaves files, none of them a track. *)
Definition noTrack : ProducerRun :=
  mkProducerRun Exited0 [File "cover.jpg"; Dir "Artist" [File "01 Song.M4A"; File "02 Other.m4a.part"]].

(** [gamdl] is killed by the timeout. *)
Definition timedOut : ProducerRun :=
  mkProducerRun (ExecRejected "Command failed: gamdl") [Dir "Artist" []].

(** The url is submitted and queued. *)
Definition submitted : State := stateAfter (post_download (JStr url)) boot.

(** A worker takes the job and the download succeeds. *)
Definition cached : State :=
  stateAfter (runJob job goodRun) (stateAfter takeNext submitted).

(** Somebody then removes the job's directory. *)
Definition gone : State := deletedExternally (j_jobId job) cached.

End Sample.

(** ** The rest of [server.js] *)

(** What [readdir] can return as a name: not empty, not [.] or [..], and
    without a separator. *)
Definition cleanName (name : string) : bool :=
  negb (isEmpty name) && negb (String.eqb name ".") && negb (String.eqb name "..")
  && negb (includes name "/").

(** A listing as a file system has it: clean names, and no name twice in
    one directory. *)
Fixpoint wellFormedEntry (e : entry) : bool :=
  match e with
  | File name => cleanName name
  | Dir name children =>
      cleanName name
      && List.forallb wellFormedEntry children
      && bool_decide (NoDup (List.map entryName children))
  end.

Definition wellFormed (dir : list entry) : bool :=
  List.forallb wellFormedEntry dir && bool_decide (NoDup (List.map entryName dir)).

(** A timer whose callback deletes the directory of this job, or forgets
    its result. *)
Definition deletes (id : string) (t : Timer) : bool :=
  match action t with DeleteDownloads id' => String.eqb id' id | _ => false end.

Definition forgets (id : string) (t : Timer) : bool :=
  match action t with ForgetResult id' => String.eqb id' id | _ => false end.

(** The timers that run when [ms] milliseconds pass. *)
Definition dueWithin (ms : Z) (st : State) : list Timer :=
  List.filter (fun t => due t <=? now st + ms) (timers st).

(** [cleanupOldCaches()], run once when the server starts listening.
    [mtimeMs] is what [fs.stat] reports as [mtimeMs] for a directory under
    [downloads/]. The age in days is the quotient the source computes, in
    exact arithmetic. The names [readdir] lists are the directories of the
    model, in some order. *)
Definition ageDays (nowMs : Z) (mtime : Q) : Q :=
  Qdiv (Qminus (inject_Z nowMs) mtime) (inject_Z (1000 * 60 * 60 * 24)).

Definition tooOld (nowMs : Z) (mtime : Q) : bool :=
  negb (Qle_bool (ageDays nowMs mtime) (inject_Z CACHE_TTL_DAYS)).

Definition cleanupOldCaches (mtimeMs : string -> Q) : M unit :=
  tryCatch
    (entries ← gets (fun st => List.map fst (map_to_list (disk st)));
     nowMs ← date_now;
     forEach entries (fun name =>
       if tooOld nowMs (mtimeMs name) then fs_rm name else mret tt))
    (fun _ => mret tt).

(** A job whose url is a string that passes the checks of
    [POST /api/download]; a queue whose waiting and active jobs all are. *)
Definition validJob (job : Job) : bool :=
  match j_url job with
  | JStr s => passesValidation s
  | _ => false
  end.

Definition queueIsValid (st : State) : bool :=
  List.forallb validJob (waiting st) && List.forallb validJob (active st).

(** Further situations of the sample run. *)
Module Scenario.

(** A second job for the sample url. *)
Definition retry : Job := mkJob (JStr Sample.url) (Sample.uuids 1).

(** The listing [Sample.goodRun] leaves. *)
Definition listing : list entry := leftInDir Sample.goodRun.

(** The job was taken by a worker; it has not finished. *)
Definition taken : State := stateAfter takeNext Sample.submitted.

(** The producer has run for the job; the worker has not reported yet. *)
Definition ran : State := afterRun Sample.job Sample.goodRun taken.

(** What the second job yields on [Sample.goodRun]. *)
Definition retryResult : JobResult :=
  resultFor retry "Artist/Album/01 Song.m4a" Sample.boot.

(** A history: the sample job fails, the url is submitted again, the
    second job succeeds, an hour passes and the queue is asked about. *)
Definition history : list Op :=
  [OpSubmit (JStr Sample.url); OpTake; OpRun Sample.job Sample.timedOut;
   OpSubmit (JStr Sample.shouted); OpSubmit (JNum 7); OpTake;
   OpRun retry Sample.goodRun; OpElapse 3600000; OpStats;
   OpSubmit (JStr Sample.url)].

(** Modification times for the startup sweep: the first directory is four
    days old at the time of the sweep, every other one a day old. *)
Definition sweepTime : Z := 10 * 86400000.

Definition mtimes (name : string) : Q :=
  if String.eqb name (Sample.uuids 0) then inject_Z (6 * 86400000)
  else inject_Z (9 * 86400000).

(** Two directories on disk and the clock at the time of the sweep. *)
Definition restarted : State :=
  set_now sweepTime
    (set_disk (insert (Sample.uuids 1) listing) Sample.cached).

End Scenario.

(** ** The worker pool: [downloadQueue.process(QUEUE_CONCURRENCY, ...)] *)

(** What [parseInt] returns here: [NaN], an integer that a double holds
    exactly, or a number beyond that range, where the digits are rounded
    and the value is not followed further. *)
Inductive JsInt : Type :=
| NaN
| Integer (n : Z)
| Inexact.

Definition MAX_SAFE_INTEGER : Z := 9007199254740991.

Definition digitValue (c : ascii) : option Z :=
  let n := JsString.code c in
  if ((48 <=? n) && (n <=? 57))%N then Some (Z.of_N n - 48) else None.

(** The value of the longest prefix of decimal digits of [s]; [acc] is
    what has been read so far, [None] while no digit has been read. *)
Fixpoint leadingDigits (acc : option Z) (s : string) : option Z :=
  match s with
  | EmptyString => acc
  | String c rest =>
      match digitValue c with
      | Some d => leadingDigits (Some (10 * default 0 acc + d)) rest
      | None => acc
      end
  end.

(** [parseInt(s, 10)]: white space is skipped, one sign is read, then the
    digits up to the first character that is none; no digit gives [NaN]. *)
Definition parseInt (s : string) : JsInt :=
  match trimStart s with
  | EmptyString => NaN
  | String c rest =>
      let negative := Ascii.eqb c "-" in
      let unsigned := if negative || Ascii.eqb c "+" then rest else String c rest in
      match leadingDigits None unsigned with
      | None => NaN
      | Some n =>
          if n <=? MAX_SAFE_INTEGER then Integer (if negative then - n else n)
          else Inexact
      end
  end.

(** [parseInt(process.env.QUEUE_CONCURRENCY || '5', 10)]; the argument is
    the variable of the environment, [None] when it is not set. *)
Definition QUEUE_CONCURRENCY (env_QUEUE_CONCURRENCY : option string) : JsInt :=
  parseInt (match env_QUEUE_CONCURRENCY with
            | Some s => if isEmpty s then "5" else s
            | None => "5"
            end).

(** Modelled from the spec: the workers behind [downloadQueue.process],
    whose scheduler is the Bull library's and is not part of this
    repository. The specification (4.3 and 5) has "a fixed-size pool of W
    workers (W = configurable concurrency)" that "independently dequeues
    jobs", where "each worker executes at most one job at a time": a worker
    is idle or holds the one job it executes. *)
Definition Worker : Type := option Job.

Record Pool := mkPool {
  server : State;
  workers : list Worker
}.

(** The jobs in the hands of workers: one invocation of the producer each. *)
Definition executing (p : Pool) : list Job := omap id (workers p).

(** Modelled from the spec: [downloadQueue.process(concurrency, processor)]
    sets up the pool of [concurrency] workers (the configuration holds a
    "worker concurrency (integer >= 1)"), all of them idle. *)
Definition process (concurrency : Z) (st : State) : Pool :=
  mkPool st (List.repeat None (Z.to_nat concurrency)).

(** Modelled from the spec: worker [i] dequeues. Only an idle worker does;
    it is handed the job that Bull moves from waiting to active, if there
    is one. *)
Definition workerTakes (i : nat) (p : Pool) : Pool :=
  match workers p !! i with
  | Some None =>
      match takeNext (server p) with
      | (Return (Some job), st') => mkPool st' (<[i := Some job]> (workers p))
      | (_, st') => mkPool st' (workers p)
      end
  | _ => p
  end.

(** Modelled from the spec: the processor of worker [i] settles, the
    producer having run as [run]; Bull files the job, the event handler
    runs, and the worker is idle again. *)
Definition workerSettles (i : nat) (run : ProducerRun) (p : Pool) : Pool :=
  match workers p !! i with
  | Some (Some job) =>
      mkPool (stateAfter (runJob job run) (server p)) (<[i := None]> (workers p))
  | _ => p
  end.

(** What can happen to the server and its pool, one thing at a time:
    requests, time and lost directories as in [Op], and the two moves of a
    worker. *)
Inductive PoolOp : Type :=
| Submits (url : jsval)
| AsksStatus (id : string)
| AsksStats
| Clears
| Elapses (ms : Z)
| DirDeleted (id : string)
| Takes (worker : nat)
| Settles (worker : nat) (run : ProducerRun).

(** The steps that are not a worker's. *)
Definition outside (op : PoolOp) : option Op :=
  match op with
  | Submits url => Some (OpSubmit url)
  | AsksStatus id => Some (OpStatus id)
  | AsksStats => Some OpStats
  | Clears => Some OpClear
  | Elapses ms => Some (OpElapse ms)
  | DirDeleted id => Some (OpDeleteDir id)
  | Takes _ | Settles _ _ => None
  end.

Definition poolStep (op : PoolOp) (p : Pool) : Pool :=
  match op with
  | Takes i => workerTakes i p
  | Settles i run => workerSettles i run p
  | _ =>
      match outside op with
      | Some o => mkPool (perform o (server p)) (workers p)
      | None => p
      end
  end.

Definition runPool (ops : list PoolOp) (p : Pool) : Pool :=
  List.fold_left (fun p op => poolStep op p) ops p.

(** The history of the server that a run of the pool amounts to. *)
Definition asOps (op : PoolOp) (p : Pool) : list Op :=
  match op with
  | Takes i =>
      match workers p !! i with Some None => [OpTake] | _ => [] end
  | Settles i run =>
      match workers p !! i with Some (Some job) => [OpRun job run] | _ => [] end
  | _ => match outside op with Some o => [o] | None => [] end
  end.

Fixpoint schedule (ops : list PoolOp) (p : Pool) : list Op :=
  match ops with
  | [] => []
  | op :: rest => (asOps op p ++ schedule rest (poolStep op p))%list
  end.

(** A burst on a server with two workers. *)
Module Burst.

(** An id for each call of [uuidv4()], all different up to the tenth. *)
Definition ids (n : nat) : string :=
  "7d0c2b1a-4e5f-4a6b-9c8d-00000000000" ++ String (ascii_of_nat (48 + n)) "".

Definition boot : State :=
  mkState 0 ∅ ∅ ∅ [] [] [] [] [] ids 0%nat None [].

Definition track (n : string) : jsval :=
  JStr ("https://music.apple.com/us/album/x/1?i=" ++ n).

(** Five urls arrive at once; the workers take what they can, also a
    worker that is busy and one that does not exist; a download ends and
    its worker takes the next job. *)
Definition arrivals : list PoolOp :=
  [Submits (track "1"); Submits (track "2"); Submits (track "3");
   Submits (track "4"); Submits (track "5")].

Definition ops : list PoolOp :=
  (arrivals ++
   [Takes 0; Takes 1; Takes 0; Takes 2;
    Settles 1 Sample.goodRun; Takes 1; Takes 1; AsksStats])%list.

(** Six urls and six attempts to take a job, on the default pool. *)
Definition six : list PoolOp :=
  (arrivals ++
   [Submits (track "6"); Takes 0; Takes 1; Takes 2; Takes 3; Takes 4; Takes 5;
    Takes 0])%list.

End Burst.

(** * Proofs *)

(** ** The primitives on examples *)

Example segments_ex : segments "Artist/Album//./01 Song.m4a" = ["Artist"; "Album"; "01 Song.m4a"].
Proof. reflexivity. Qed.

Example resolves_ex :
  resolves [File "log.txt"; Dir "Artist" [Dir "Album" [File "01 Song.m4a"]]]
           (segments "Artist/Album/01 Song.m4a") = true
  /\ resolves [File "log.txt"; Dir "Artist" [Dir "Album" [File "01 Song.m4a"]]]
              (segments "Artist/01 Song.m4a") = false.
Proof. split; reflexivity. Qed.

Example trim_ex :
  JsString.trim (String "009" (" a b " ++ String "010" (String "160" ""))) = "a b".
Proof. reflexivity. Qed.

Example lower_ex : JsString.toLowerCase "HTTPS://Music.Apple.COM/x" = "https://music.apple.com/x".
Proof. reflexivity. Qed.

Example includes_ex : JsString.includes "https://music.apple.com/x" "music.apple.com" = true.
Proof. reflexivity. Qed.

Example includes_ex2 : JsString.includes "https://MUSIC.apple.com/x" "music.apple.com" = false.
Proof. reflexivity. Qed.

Example endsWith_ex : JsString.endsWith "a/b.m4a" ".m4a" = true /\ JsString.endsWith "m4a" ".m4a" = false
  /\ JsString.endsWith "a.M4A" ".m4a" = false /\ JsString.endsWith "x.m4a.part" ".m4a" = false.
Proof. repeat split; reflexivity. Qed.

Example recase_ex : JsString.recase [true;false;true;true] "uRl" = "URL".
Proof. reflexivity. Qed.

(** *** Facts about the string primitives *)

Module JsStringFacts.
Import JsString.

Ltac by_cases_on_char c :=
  destruct c as [[] [] [] [] [] [] [] []]; vm_compute; reflexivity.

Lemma lowerChar_idem c : lowerChar (lowerChar c) = lowerChar c.
Proof. by_cases_on_char c. Qed.

Lemma isWhiteSpace_lowerChar c : isWhiteSpace (lowerChar c) = isWhiteSpace c.
Proof. by_cases_on_char c. Qed.

Lemma lowerChar_flipChar c : lowerChar (flipChar c) = lowerChar c.
Proof. by_cases_on_char c. Qed.

Lemma toLowerCase_idem s : toLowerCase (toLowerCase s) = toLowerCase s.
Proof. induction s as [|c r IH]; simpl; [|rewrite lowerChar_idem, IH]; reflexivity. Qed.

Lemma toLowerCase_recase m s : toLowerCase (recase m s) = toLowerCase s.
Proof.
  revert m; induction s as [|c r IH]; intros m; simpl; [reflexivity|].
  destruct m as [|b m]; simpl; [reflexivity|].
  rewrite IH. destruct b; [rewrite lowerChar_flipChar|]; reflexivity.
Qed.

Lemma isEmpty_toLowerCase s : isEmpty (toLowerCase s) = isEmpty s.
Proof. destruct s; reflexivity. Qed.

Lemma trimStart_toLowerCase s : trimStart (toLowerCase s) = toLowerCase (trimStart s).
Proof.
  induction s as [|c r IH]; simpl; [reflexivity|].
  rewrite isWhiteSpace_lowerChar. destruct (isWhiteSpace c); [exact IH | reflexivity].
Qed.

Lemma trimEnd_toLowerCase s : trimEnd (toLowerCase s) = toLowerCase (trimEnd s).
Proof.
  induction s as [|c r IH]; simpl; [reflexivity|].
  rewrite isWhiteSpace_lowerChar, IH, isEmpty_toLowerCase.
  destruct (isWhiteSpace c && isEmpty (trimEnd r)); reflexivity.
Qed.

Lemma trim_toLowerCase s : trim (toLowerCase s) = toLowerCase (trim s).
Proof. unfold trim. rewrite trimStart_toLowerCase. apply trimEnd_toLowerCase. Qed.

(** The two one-sided trims commute. *)
Lemma trimEnd_trimStart s : trimEnd (trimStart s) = trimStart (trimEnd s).
Proof.
  induction s as [|c r IH]; [reflexivity|].
  cbn [trimStart trimEnd].
  destruct (isWhiteSpace c) eqn:Hc; cbn [andb].
  - rewrite IH. destruct (trimEnd r) eqn:Hr; cbn [isEmpty trimStart]; [reflexivity|].
    rewrite Hc. reflexivity.
  - cbn [trimStart trimEnd]. rewrite Hc. reflexivity.
Qed.

Lemma trimStart_idem s : trimStart (trimStart s) = trimStart s.
Proof.
  induction s as [|c r IH]; [reflexivity|].
  cbn [trimStart]. destruct (isWhiteSpace c) eqn:Hc; [exact IH|].
  cbn [trimStart]. rewrite Hc. reflexivity.
Qed.

Lemma trimEnd_idem s : trimEnd (trimEnd s) = trimEnd s.
Proof.
  induction s as [|c r IH]; [reflexivity|].
  cbn [trimEnd].
  destruct (isWhiteSpace c && isEmpty (trimEnd r)) eqn:E; [reflexivity|].
  cbn [trimEnd]. rewrite IH, E. reflexivity.
Qed.

Lemma trim_idem s : trim (trim s) = trim s.
Proof.
  unfold trim.
  rewrite (trimEnd_trimStart (trimEnd (trimStart s))), trimEnd_idem.
  rewrite <- trimEnd_trimStart, trimStart_idem. reflexivity.
Qed.

Lemma trimStart_app_ws w s : allWhiteSpace w = true -> trimStart (w ++ s) = trimStart s.
Proof.
  induction w as [|c r IH]; simpl; [reflexivity|].
  intros [Hc Hr]%andb_prop. rewrite Hc. auto.
Qed.

Lemma trimEnd_ws w : allWhiteSpace w = true -> trimEnd w = "".
Proof.
  induction w as [|c r IH]; simpl; [reflexivity|].
  intros [Hc Hr]%andb_prop. rewrite Hc, (IH Hr). reflexivity.
Qed.

Lemma trimEnd_app_ws s w : allWhiteSpace w = true -> trimEnd (s ++ w) = trimEnd s.
Proof.
  intros Hw. induction s as [|c r IH]; simpl; [apply trimEnd_ws, Hw|].
  rewrite IH. reflexivity.
Qed.

(** White space around a string does not survive [trim]. *)
Lemma trim_surrounding w1 s w2 :
  allWhiteSpace w1 = true -> allWhiteSpace w2 = true ->
  trim (w1 ++ s ++ w2) = trim s.
Proof.
  intros H1 H2. unfold trim.
  rewrite trimStart_app_ws by exact H1.
  rewrite !trimEnd_trimStart, trimEnd_app_ws by exact H2. reflexivity.
Qed.

End JsStringFacts.


(** ** Running a handler *)

(** Unfold the monad and the primitives so that a handler computes. *)
Ltac unfold_monad :=
  unfold mbind, M_bind, mret, M_ret, tryCatch, throw, gets, modify.

Ltac unfold_primitives :=
  unfold redis_get, redis_setex, redis_del, queue_add, queue_obliterate,
    jobResults_set, jobResults_delete, jobResults_clear, setTimeout,
    scheduleFileDeletion, cacheFilesExist, date_now, uuidv4, fs_mkdir, fs_rm,
    moveToCompleted, moveToFailed, pkill.

Ltac run := unfold_primitives; unfold_monad; cbn.

Lemma resultOf_cacheRecordOf result t : resultOf (cacheRecordOf result t) = result.
Proof. destruct result; reflexivity. Qed.

Lemma passesValidation_inv url :
  passesValidation url = true ->
  isEmpty url = false /\ includes url "music.apple.com" = true.
Proof.
  unfold passesValidation. intros [H1 H2]%andb_prop.
  split; [apply negb_true_iff, H1 | exact H2].
Qed.

(** *** [POST /api/download], case by case *)

(** A string that fails one of the two checks: status 400, nothing done. *)
Lemma post_download_invalid url st :
  passesValidation url = false ->
  post_download (JStr url) st =
    (Return (Rejected 400 (if isEmpty url then "URL is required"
                           else "Invalid Apple Music URL")), st).
Proof.
  unfold passesValidation, post_download. intros H. run.
  destruct (isEmpty url); cbn in *; [reflexivity|].
  rewrite H. reflexivity.
Qed.

(** A missing [url]: status 400, nothing done. *)
Lemma post_download_missing url st :
  url = JUndefined \/ url = JNull ->
  post_download url st = (Return (Rejected 400 "URL is required"), st).
Proof. intros [-> | ->]; reflexivity. Qed.

(** A value that is not a string never gets past the handler's first
    lines: the answer is an error and nothing is done. *)
Lemma post_download_not_a_string url st :
  (forall s, url <> JStr s) ->
  exists status message,
    post_download url st = (Return (Rejected status message), st).
Proof.
  intros Hns. destruct url as [| |b|n|s|elems|fields]; unfold post_download; run.
  - eauto.
  - eauto.
  - destruct b; cbn; eauto.
  - destruct (n =? 0); cbn; eauto.
  - destruct (Hns s eq_refl).
  - destruct (existsb (isStr "music.apple.com") elems); cbn; eauto.
  - eauto.
Qed.


(** No live entry under the key: a job is queued. *)
Lemma post_download_miss url st :
  passesValidation url = true ->
  redis_lookup (getCacheKey url) st = None ->
  post_download (JStr url) st =
    (Return (Queued (uuidSource st (uuidsDrawn st))
                    (statusUrlOf (uuidSource st (uuidsDrawn st)))),
     enqueued url (emit (RedisGet (getCacheKey url)) st)).
Proof.
  intros [He Hi]%passesValidation_inv Hl. unfold post_download. run.
  rewrite He, Hi. cbn. unfold redis_lookup in Hl |- *. cbn in *. rewrite Hl. reflexivity.
Qed.

(** A live entry whose file is there: it is served, and only the read is
    logged. *)
Lemma post_download_hit url st c :
  passesValidation url = true ->
  redis_lookup (getCacheKey url) st = Some c ->
  fs_exists (c_jobId c) (c_fileName c) st = true ->
  post_download (JStr url) st =
    (Return (FromCache (c_jobId c) (c_cachedAt c) (resultOf c) (statusUrlOf (c_jobId c))),
     emit (RedisGet (getCacheKey url)) st).
Proof.
  intros [He Hi]%passesValidation_inv Hl Hf. unfold post_download. run.
  rewrite He, Hi. cbn. rewrite Hl. cbn.
  unfold fs_exists in Hf |- *. cbn in *. rewrite Hf. reflexivity.
Qed.

(** A live entry whose file is gone: the entry is deleted and a job is
    queued. *)
Lemma post_download_stale url st c :
  passesValidation url = true ->
  redis_lookup (getCacheKey url) st = Some c ->
  fs_exists (c_jobId c) (c_fileName c) st = false ->
  post_download (JStr url) st =
    (Return (Queued (uuidSource st (uuidsDrawn st))
                    (statusUrlOf (uuidSource st (uuidsDrawn st)))),
     enqueued url
       (emit (RedisDel (getCacheKey url))
          (set_redis (delete (getCacheKey url))
             (emit (RedisGet (getCacheKey url)) st)))).
Proof.
  intros [He Hi]%passesValidation_inv Hl Hf. unfold post_download. run.
  rewrite He, Hi. cbn. rewrite Hl. cbn.
  unfold fs_exists in Hf |- *. cbn in *. rewrite Hf. reflexivity.
Qed.

(** Only strings that pass validation are ever queued, and each under the
    id drawn for it. *)
Lemma post_download_queues_validated_strings url st :
  let st' := stateAfter (post_download url) st in
  waiting st' = waiting st
  \/ exists s,
       url = JStr s /\ passesValidation s = true
       /\ waiting st' = (waiting st ++ [mkJob (JStr s) (uuidSource st (uuidsDrawn st))])%list.
Proof.
  unfold stateAfter.
  assert (Hstr : (exists s, url = JStr s) \/ forall s, url <> JStr s).
  { destruct url; try (right; intros s; discriminate). left; eauto. }
  destruct Hstr as [[s ->] | Hns].
  2:{ destruct (post_download_not_a_string url st Hns) as (status & message & ->).
      left. reflexivity. }
  destruct (passesValidation s) eqn:Hv.
  2:{ rewrite (post_download_invalid s st Hv). left. reflexivity. }
  destruct (redis_lookup (getCacheKey s) st) as [c|] eqn:Hl.
  2:{ rewrite (post_download_miss s st Hv Hl). right. exists s. repeat split; exact Hv. }
  destruct (fs_exists (c_jobId c) (c_fileName c) st) eqn:Hf.
  - rewrite (post_download_hit s st c Hv Hl Hf). left. reflexivity.
  - rewrite (post_download_stale s st c Hv Hl Hf). right. exists s.
    repeat split; exact Hv.
Qed.

(** *** The event handlers *)

(** What the [completed] handler does for a job whose [url] is a string. *)
Lemma onCompleted_effect job b result st :
  j_url job = JStr b ->
  let st' := stateAfter (onCompleted job result) st in
  redis st' =
    <[getCacheKey b :=
        (cacheRecordOf result (now st), now st + CACHE_TTL_SECONDS * 1000)]> (redis st)
  /\ timers st' =
       (timers st ++
        [mkTimer (now st + CACHE_TTL_SECONDS * 1000) (DeleteDownloads (j_jobId job));
         mkTimer (now st + 3600000) (ForgetResult (j_jobId job))])%list
  /\ jobResults st' = <[j_jobId job := OutcomeCompleted result]> (jobResults st)
  /\ log st' =
       (log st ++ [RedisSetex (getCacheKey b) CACHE_TTL_SECONDS
                              (cacheRecordOf result (now st))])%list
  /\ disk st' = disk st /\ now st' = now st
  /\ uuidsDrawn st' = uuidsDrawn st /\ uuidSource st' = uuidSource st.
Proof.
  intros Hb. unfold stateAfter, onCompleted. rewrite Hb. run.
  rewrite <- app_assoc. repeat split; reflexivity.
Qed.

(** What the [failed] handler does: it touches the result map and the
    timers, nothing else. *)
Lemma onFailed_effect job message st :
  onFailed job message st =
    (Return tt,
     set_timers (fun ts => (ts ++ [mkTimer (now st + 3600000) (ForgetResult (j_jobId job))])%list)
       (set_jobResults (insert (j_jobId job) (OutcomeFailed message)) st)).
Proof. reflexivity. Qed.

(** The entry a completion wrote is live until its expiry instant. *)
Lemma redis_lookup_written key value expiresAt st :
  redis st !! key = Some (value, expiresAt) ->
  now st <= expiresAt ->
  redis_lookup key st = Some value.
Proof.
  intros Hk Hn. unfold redis_lookup. rewrite Hk.
  destruct (Z.leb_spec (now st) expiresAt); [reflexivity | lia].
Qed.

Lemma normalize_getCacheKey a b :
  normalize a = normalize b -> getCacheKey a = getCacheKey b.
Proof. unfold getCacheKey. intros ->. reflexivity. Qed.

(** A submission that meets the entry a completion wrote, with the file in
    place, is answered with the result of that completion. *)
Lemma hit_after_completion job b result st0 a st :
  j_url job = JStr b ->
  normalize a = normalize b ->
  passesValidation a = true ->
  redis st !! getCacheKey b =
    redis (stateAfter (onCompleted job result) st0) !! getCacheKey b ->
  now st <= now st0 + CACHE_TTL_SECONDS * 1000 ->
  fs_exists (jobId result) (fileName result) st = true ->
  post_download (JStr a) st =
    (Return (FromCache (jobId result) (now st0) result (statusUrlOf (jobId result))),
     emit (RedisGet (getCacheKey b)) st).
Proof.
  intros Hb Hn Hv Hr Ht Hf.
  destruct (onCompleted_effect job b result st0 Hb) as (Hredis & _).
  rewrite Hredis, lookup_insert_eq in Hr.
  rewrite <- (normalize_getCacheKey a b Hn).
  rewrite (post_download_hit a st (cacheRecordOf result (now st0)) Hv).
  - rewrite resultOf_cacheRecordOf. reflexivity.
  - rewrite (normalize_getCacheKey a b Hn).
    eapply redis_lookup_written; [exact Hr | exact Ht].
  - exact Hf.
Qed.

(** *** The enumeration of produced files *)

(** Induction on a directory tree. *)
Lemma entry_tree_ind (P : entry -> Prop) :
  (forall name, P (File name)) ->
  (forall name children, Forall P children -> P (Dir name children)) ->
  forall e, P e.
Proof.
  intros HFile HDir. fix IH 1. intros [name | name children].
  - apply HFile.
  - apply HDir. induction children as [|c r IHr]; constructor; [apply IH | exact IHr].
Qed.

Lemma filter_isM4a_under name (l : list (string * string)) :
  List.filter isM4a (List.map (fun pn => (pathJoin name (fst pn), snd pn)) l) =
  List.map (fun pn => (pathJoin name (fst pn), snd pn)) (List.filter isM4a l).
Proof.
  induction l as [|[p n] l IH]; [reflexivity|].
  cbn [List.map List.filter fst snd].
  change (isM4a (pathJoin name p, n)) with (isM4a (p, n)).
  destruct (isM4a (p, n)); cbn [List.map fst snd]; rewrite IH; reflexivity.
Qed.

Lemma flat_map_findM4aIn children :
  Forall (fun e => findM4aIn e = List.map fst (List.filter isM4a (filesIn e))) children ->
  List.flat_map findM4aIn children =
  List.map fst (List.filter isM4a (List.flat_map filesIn children)).
Proof.
  induction 1 as [|e r He _ IH]; [reflexivity|].
  cbn [List.flat_map]. rewrite List.filter_app, List.map_app, He, IH. reflexivity.
Qed.

Lemma findM4aIn_filesIn e :
  findM4aIn e = List.map fst (List.filter isM4a (filesIn e)).
Proof.
  induction e as [name | name children IH] using entry_tree_ind.
  - cbn. unfold isM4a. cbn. destruct (endsWith name ".m4a"); reflexivity.
  - cbn [findM4aIn filesIn].
    rewrite (flat_map_findM4aIn children IH), filter_isM4a_under, !List.map_map.
    reflexivity.
Qed.

(** [findM4aFiles] returns, in enumeration order, the relative paths of
    exactly the files whose name ends in [.m4a]. *)
Lemma findM4aFiles_depositedFiles dir :
  findM4aFiles dir = List.map fst (List.filter isM4a (depositedFiles dir)).
Proof.
  unfold findM4aFiles, depositedFiles. apply flat_map_findM4aIn.
  apply Forall_forall. intros e _. apply findM4aIn_filesIn.
Qed.

Lemma filter_none {A} (f : A -> bool) (l : list A) :
  List.forallb (fun x => negb (f x)) l = true -> List.filter f l = [].
Proof.
  induction l as [|x l IH]; [reflexivity|]. cbn.
  intros [Hx Hl]%andb_prop. apply negb_true_iff in Hx. rewrite Hx. auto.
Qed.

(** *** The worker *)


Lemma processor_outcome job run st :
  processor job run st =
    (match settled run with
     | ExecRejected message => Throw message
     | Exited0 =>
         match findM4aFiles (leftInDir run) with
         | [] => Throw "No M4A file found after download"
         | first :: _ => Return (resultFor job first st)
         end
     end,
     afterRun job run st).
Proof.
  assert (Hst : forall st1, disk st1 = disk st \/ disk st1 = <[j_jobId job := []]> (disk st) ->
                 st1 = set_disk (fun _ => disk st1) st ->
                 set_disk (insert (j_jobId job) (leftInDir run)) st1 = afterRun job run st).
  { intros st1 Hd ->. unfold afterRun, set_disk. cbn. f_equal.
    destruct Hd as [-> | ->]; [reflexivity | apply insert_insert_eq]. }
  unfold processor, execAsync_gamdl, readdir. run.
  destruct (disk st !! j_jobId job) eqn:Hd; cbn.
  - rewrite (Hst st) by (auto; destruct st; reflexivity).
    destruct (settled run); [|reflexivity].
    unfold afterRun at 1. cbn. rewrite lookup_insert_eq.
    destruct (findM4aFiles (leftInDir run)); reflexivity.
  - rewrite (Hst (set_disk (insert (j_jobId job) []) st)) by (auto; reflexivity).
    destruct (settled run); [|reflexivity].
    unfold afterRun at 1. cbn. rewrite lookup_insert_eq.
    destruct (findM4aFiles (leftInDir run)); reflexivity.
Qed.

(** A run that ends in failure: the job is filed under failed, the result
    map says so, and neither Redis nor the log is touched. *)
Lemma runJob_failure job run st message :
  answer (processor job run) st = Throw message ->
  let st' := stateAfter (runJob job run) st in
  jobResults st' = <[j_jobId job := OutcomeFailed message]> (jobResults st)
  /\ failed st' = (failed st ++ [(job, message)])%list
  /\ completed st' = completed st
  /\ redis st' = redis st
  /\ log st' = log st.
Proof.
  unfold answer, stateAfter, runJob. rewrite processor_outcome. cbn [fst].
  intros ->. run. repeat split; reflexivity.
Qed.

(** A run that ends in success: the job is filed under completed and the
    [completed] handler runs on the state the processor left. *)
Lemma runJob_success job run st result :
  answer (processor job run) st = Return result ->
  stateAfter (runJob job run) st =
  stateAfter (onCompleted job result)
    (stateAfter (moveToCompleted job result) (afterRun job run st)).
Proof.
  unfold answer, stateAfter, runJob. rewrite processor_outcome. cbn [fst].
  intros ->. reflexivity.
Qed.

(** ** The sample run *)

Example sample_submitted :
  answer (post_download (JStr Sample.url)) Sample.boot =
    Return (Queued (Sample.uuids 0) (statusUrlOf (Sample.uuids 0)))
  /\ waiting Sample.submitted = [Sample.job].
Proof. split; reflexivity. Qed.

Example sample_cached :
  redis_lookup (getCacheKey Sample.url) Sample.cached =
    Some (cacheRecordOf (resultFor Sample.job "Artist/Album/01 Song.m4a" Sample.boot) 0)
  /\ waiting Sample.cached = [] /\ active Sample.cached = []
  /\ completed Sample.cached = [(Sample.job, Sample.result)]
  /\ fs_exists (Sample.uuids 0) "Artist/Album/01 Song.m4a" Sample.cached = true.
Proof. vm_compute. repeat split; reflexivity. Qed.

Example sample_resubmitted :
  answer (post_download (JStr "  HTTPS://music.apple.com/US/album/x/1?i=2 ")) Sample.cached =
    Return (FromCache (Sample.uuids 0) 0
              (resultFor Sample.job "Artist/Album/01 Song.m4a" Sample.boot)
              (statusUrlOf (Sample.uuids 0))).
Proof. vm_compute. reflexivity. Qed.

Example sample_after_ttl :
  let later := stateAfter (elapse (CACHE_TTL_SECONDS * 1000 + 1)) Sample.cached in
  redis_lookup (getCacheKey Sample.url) later = None
  /\ disk later !! Sample.uuids 0 = None
  /\ answer (post_download (JStr Sample.url)) later =
       Return (Queued (Sample.uuids 1) (statusUrlOf (Sample.uuids 1))).
Proof. vm_compute. repeat split; reflexivity. Qed.

(** ** The cache read on the submission path *)

Lemma valid_fs_exists c st :
  valid c st = fs_exists (c_jobId c) (c_fileName c) st.
Proof. unfold valid, producedFiles. cbn. apply andb_true_r. Qed.

Lemma redis_lookup_deleted key st :
  redis_lookup key (set_redis (delete key) st) = None.
Proof. unfold redis_lookup. cbn. rewrite lookup_delete_eq. reflexivity. Qed.

(** C1. The submission path answers from the cache only with a record that
    is stored live under the key of the submitted url and is valid: each of
    its produced files, resolved under its job's directory, exists. When
    the record read is not valid, the entry is deleted from the store and
    the answer is the one an absent entry gets. *)
Theorem cache_read_serves_only_valid_records :
  (forall url st id cachedAt result statusUrl,
      answer (post_download url) st = Return (FromCache id cachedAt result statusUrl) ->
      exists s c,
        url = JStr s
        /\ redis_lookup (getCacheKey s) st = Some c
        /\ valid c st = true
        /\ id = c_jobId c /\ cachedAt = c_cachedAt c /\ result = resultOf c)
  /\ (forall s st c,
      passesValidation s = true ->
      redis_lookup (getCacheKey s) st = Some c ->
      valid c st = false ->
      redis (stateAfter (post_download (JStr s)) st) !! getCacheKey s = None
      /\ answer (post_download (JStr s)) st =
         answer (post_download (JStr s)) (set_redis (delete (getCacheKey s)) st)).
Proof.
  split.
  - intros url st id cachedAt result statusUrl Hans. unfold answer in Hans.
    assert (Hstr : exists s, url = JStr s).
    { destruct url as [| | | |s| |]; try (exists s; reflexivity);
        match type of Hans with context [post_download ?u] =>
          destruct (post_download_not_a_string u st) as (status & message & E);
            [intros s; discriminate | rewrite E in Hans; discriminate]
        end. }
    destruct Hstr as [s ->]. exists s.
    destruct (passesValidation s) eqn:Hv.
    2:{ rewrite (post_download_invalid s st Hv) in Hans. discriminate. }
    destruct (redis_lookup (getCacheKey s) st) as [c|] eqn:Hl.
    2:{ rewrite (post_download_miss s st Hv Hl) in Hans. discriminate. }
    exists c. rewrite valid_fs_exists.
    destruct (fs_exists (c_jobId c) (c_fileName c) st) eqn:Hf.
    + rewrite (post_download_hit s st c Hv Hl Hf) in Hans. cbn in Hans.
      injection Hans as <- <- <- _. repeat split; reflexivity.
    + rewrite (post_download_stale s st c Hv Hl Hf) in Hans. discriminate.
  - intros s st c Hv Hl Hvalid. rewrite valid_fs_exists in Hvalid.
    unfold stateAfter, answer.
    rewrite (post_download_stale s st c Hv Hl Hvalid).
    rewrite (post_download_miss s _ Hv (redis_lookup_deleted _ st)).
    cbn. rewrite lookup_delete_eq. split; reflexivity.
Qed.

(** ** A stale entry *)


(** C2, as amended. A submission that passes validation and meets a live
    entry whose file is gone: the entry is deleted, the answer is the one
    of a miss, and a job carrying the next id drawn from [uuidv4] is
    appended to the waiting list. *)
Theorem stale_entry_falls_through url st :
  passesValidation url = true ->
  staleFallsThrough url st.
Proof.
  intros Hv c Hl Hvalid. rewrite valid_fs_exists in Hvalid. cbn zeta.
  unfold stateAfter, answer. rewrite (post_download_stale url st c Hv Hl Hvalid).
  cbn. unfold redis_lookup. cbn. rewrite lookup_delete_eq.
  repeat split; reflexivity.
Qed.

(** The id given to the new job has not been drawn before, as long as the
    generator does not repeat itself. *)
Lemma newly_drawn_id_is_new st k :
  Inj (=) (=) (uuidSource st) ->
  (k < uuidsDrawn st)%nat ->
  uuidSource st (uuidsDrawn st) <> uuidSource st k.
Proof. intros Hinj Hk Heq. apply Hinj in Heq. lia. Qed.

(** ** Expiry of a cache entry and deletion of its files *)

(** C3. When a job completes, the cache entry written for it and the timer
    armed to delete its directory carry the same instant: the clock at
    completion plus the TTL. The seconds given to Redis and the
    milliseconds given to [setTimeout] are the same duration, and
    [setTimeout] takes that delay as it is. *)
Theorem deletion_timer_matches_cache_expiry job b result st :
  j_url job = JStr b ->
  let st' := stateAfter (onCompleted job result) st in
  let expiresAt := now st + CACHE_TTL_SECONDS * 1000 in
  redis st' !! getCacheKey b = Some (cacheRecordOf result (now st), expiresAt)
  /\ List.filter (fun t => match action t with DeleteDownloads _ => true | _ => false end)
                 (List.skipn (length (timers st)) (timers st'))
     = [mkTimer expiresAt (DeleteDownloads (j_jobId job))]
  /\ List.skipn (length (log st)) (log st')
     = [RedisSetex (getCacheKey b) CACHE_TTL_SECONDS (cacheRecordOf result (now st))]
  /\ timerDelay (CACHE_TTL_SECONDS * 1000) = CACHE_TTL_SECONDS * 1000
  /\ CACHE_TTL_SECONDS = CACHE_TTL_DAYS * 86400.
Proof.
  intros Hb st' expiresAt. subst st' expiresAt.
  destruct (onCompleted_effect job b result st Hb) as (Hr & Ht & _ & Hlog & _).
  rewrite Hr, Ht, Hlog, lookup_insert_eq.
  rewrite !List.skipn_app, !List.skipn_all, !Nat.sub_diag. cbn.
  repeat split; reflexivity.
Qed.

(** What the timers that are due do: they delete directories and forget
    results; the clock, the cache and the log stay. *)
Lemma forEach_fire_effect ts st :
  let st' := stateAfter (forEach ts fire) st in
  now st' = now st /\ redis st' = redis st /\ timers st' = timers st
  /\ (forall id, disk st !! id = None -> disk st' !! id = None)
  /\ (forall id, In (DeleteDownloads id) (List.map action ts) -> disk st' !! id = None).
Proof.
  revert st. induction ts as [|t ts IH]; intros st; cbn zeta.
  - unfold stateAfter. cbn. repeat split; auto. intros id [].
  - unfold stateAfter. cbn [forEach]. unfold_monad.
    destruct (fire t st) as [[[]|message] st1] eqn:Hfire.
    2:{ unfold fire in Hfire. destruct (action t); discriminate Hfire. }
    specialize (IH st1). unfold stateAfter in IH. cbn zeta in IH.
    destruct IH as (Hn & Hr & Ht & Hkeep & Hdel).
    assert (Hst1 : now st1 = now st /\ redis st1 = redis st /\ timers st1 = timers st
                   /\ (forall id, disk st !! id = None -> disk st1 !! id = None)
                   /\ (forall id, action t = DeleteDownloads id -> disk st1 !! id = None)).
    { unfold fire in Hfire. destruct (action t) as [id0|id0];
        injection Hfire as <-; cbn; repeat split; try reflexivity; auto.
      - intros id Hid. rewrite lookup_delete. destruct (decide (id0 = id)); auto.
      - intros id [= ->]. apply lookup_delete_eq.
      - intros id [=]. }
    destruct Hst1 as (Hn1 & Hr1 & Ht1 & Hkeep1 & Hdel1).
    rewrite Hn, Hr, Ht. repeat split; auto.
    intros id [Hhead | Htail]; [apply Hkeep, Hdel1, Hhead | apply Hdel, Htail].
Qed.

(** Time passing: the clock moves, the cache is as it was, the timers not
    yet due remain, and the directories whose deletion was due are gone. *)
Lemma elapse_effect ms st :
  let st' := stateAfter (elapse ms) st in
  now st' = now st + ms
  /\ redis st' = redis st
  /\ timers st' = List.filter (fun t => negb (due t <=? now st + ms)) (timers st)
  /\ (forall t id, In t (timers st) -> due t <= now st + ms ->
                   action t = DeleteDownloads id -> disk st' !! id = None).
Proof.
  cbn zeta. unfold stateAfter at 1 2 3 4. unfold elapse.
  match goal with |- context [forEach ?ts fire ?s0] =>
    destruct (forEach_fire_effect ts s0) as (Hn & Hr & Ht & _ & Hdel)
  end.
  unfold stateAfter in Hn, Hr, Ht, Hdel. cbn in Hn, Hr, Ht, Hdel |- *.
  rewrite Hn, Hr, Ht. repeat split.
  intros t id Hin Hdue Hact. apply Hdel. apply List.in_map_iff.
  exists t. split; [exact Hact|]. apply List.filter_In. split; [exact Hin|].
  apply Z.leb_le, Hdue.
Qed.

(** Cache expiry and file deletion in time: before the instant both
    carry, the entry written at completion is live and the deletion is
    pending; past it, the entry has expired and the directory is gone. *)
Lemma entry_and_files_expire_together job b result st ms :
  j_url job = JStr b ->
  let expiresAt := now st + CACHE_TTL_SECONDS * 1000 in
  let st' := stateAfter (elapse ms) (stateAfter (onCompleted job result) st) in
  (0 <= ms < CACHE_TTL_SECONDS * 1000 ->
   redis_lookup (getCacheKey b) st' = Some (cacheRecordOf result (now st))
   /\ In (mkTimer expiresAt (DeleteDownloads (j_jobId job))) (timers st'))
  /\ (CACHE_TTL_SECONDS * 1000 < ms ->
      redis_lookup (getCacheKey b) st' = None
      /\ disk st' !! j_jobId job = None).
Proof.
  intros Hb expiresAt st'. subst expiresAt st'.
  destruct (onCompleted_effect job b result st Hb) as (Hr & Ht & _ & _ & _ & Hn & _).
  destruct (elapse_effect ms (stateAfter (onCompleted job result) st))
    as (Hn' & Hr' & Ht' & Hdel).
  assert (Hin : In (mkTimer (now st + CACHE_TTL_SECONDS * 1000) (DeleteDownloads (j_jobId job)))
                   (timers (stateAfter (onCompleted job result) st))).
  { rewrite Ht. apply List.in_or_app. right. left. reflexivity. }
  split; intros Hms.
  - split.
    + unfold redis_lookup. rewrite Hr', Hn', Hr, Hn, lookup_insert_eq.
      destruct (Z.leb_spec (now st + ms) (now st + CACHE_TTL_SECONDS * 1000));
        [reflexivity | lia].
    + rewrite Ht'. apply List.filter_In. split; [exact Hin|].
      cbn [due]. rewrite Hn. apply negb_true_iff, Z.leb_gt. lia.
  - split.
    + unfold redis_lookup. rewrite Hr', Hn', Hr, Hn, lookup_insert_eq.
      destruct (Z.leb_spec (now st + ms) (now st + CACHE_TTL_SECONDS * 1000));
        [lia | reflexivity].
    + apply (Hdel _ _ Hin); [|reflexivity]. cbn [due]. rewrite Hn. lia.
Qed.

(** ** Normalisation of the key *)

Lemma normalize_idem s : normalize (normalize s) = normalize s.
Proof.
  unfold normalize.
  rewrite JsStringFacts.trim_toLowerCase, JsStringFacts.trim_idem.
  apply JsStringFacts.toLowerCase_idem.
Qed.

Lemma normalize_surrounding w1 s w2 :
  allWhiteSpace w1 = true -> allWhiteSpace w2 = true ->
  normalize (w1 ++ s ++ w2) = normalize s.
Proof.
  intros H1 H2. unfold normalize.
  rewrite JsStringFacts.trim_surrounding by assumption. reflexivity.
Qed.

Lemma normalize_recase m s : normalize (recase m s) = normalize s.
Proof.
  unfold normalize.
  rewrite <- !JsStringFacts.trim_toLowerCase, JsStringFacts.toLowerCase_recase.
  reflexivity.
Qed.

(** C5. [normalize], the [url.trim().toLowerCase()] of [getCacheKey], is a
    function of its argument that is idempotent, ignores white space
    around the url and ignores letter case; [normalize(" URL ")] is
    [normalize("url")]. The key is the normal form behind a fixed prefix:
    normalising a url beforehand does not change its key, and two urls
    with the same normal form have the same key. The two paths meet
    there: the entry that the completion of a job for one of them writes is
    the entry that a submission of the other reads and is served from. *)
Theorem key_normalization_is_canonical :
  (forall s, normalize (normalize s) = normalize s)
  /\ (forall w1 s w2,
        allWhiteSpace w1 = true -> allWhiteSpace w2 = true ->
        normalize (w1 ++ s ++ w2) = normalize s)
  /\ (forall mask s, normalize (recase mask s) = normalize s)
  /\ normalize " URL " = normalize "url"
  /\ (forall s, getCacheKey (normalize s) = getCacheKey s)
  /\ (forall a b, normalize a = normalize b -> getCacheKey a = getCacheKey b)
  /\ (forall a b job result st,
        normalize a = normalize b ->
        j_url job = JStr b ->
        passesValidation a = true ->
        let st' := stateAfter (onCompleted job result) st in
        fs_exists (jobId result) (fileName result) st' = true ->
        List.skipn (length (log st)) (log st') =
          [RedisSetex (getCacheKey b) CACHE_TTL_SECONDS (cacheRecordOf result (now st))]
        /\ post_download (JStr a) st' =
             (Return (FromCache (jobId result) (now st) result (statusUrlOf (jobId result))),
              emit (RedisGet (getCacheKey b)) st')).
Proof.
  split; [exact normalize_idem|].
  split; [exact normalize_surrounding|].
  split; [exact normalize_recase|].
  split; [reflexivity|].
  split; [intros s; apply normalize_getCacheKey, normalize_idem|].
  split; [exact normalize_getCacheKey|].
  intros a b job result st Hn Hb Hv st' Hf. subst st'.
  destruct (onCompleted_effect job b result st Hb) as (_ & _ & _ & Hlog & _ & Hnow & _).
  split.
  - rewrite Hlog, List.skipn_app, List.skipn_all, Nat.sub_diag. reflexivity.
  - apply (hit_after_completion job b result st a _ Hb Hn Hv eq_refl); [|exact Hf].
    rewrite Hnow. unfold CACHE_TTL_SECONDS, CACHE_TTL_DAYS. lia.
Qed.

(** ** Validation *)

(** C7. A submission whose [url] is missing, is the empty string, or is a
    string that does not contain [music.apple.com] is answered at once with
    status 400 and the message of the check that failed. The state is left
    exactly as it was: no key was computed or read (the log has no new
    entry), no id was drawn and no job was added, so the queue statistics
    are what they were. *)
Theorem invalid_submission_is_rejected_up_front url st :
  url = JUndefined \/ url = JNull
  \/ (exists s, url = JStr s /\ passesValidation s = false) ->
  post_download url st =
    (Return (Rejected 400 (if truthy url then "Invalid Apple Music URL"
                           else "URL is required")), st)
  /\ log (stateAfter (post_download url) st) = log st
  /\ uuidsDrawn (stateAfter (post_download url) st) = uuidsDrawn st
  /\ waiting (stateAfter (post_download url) st) = waiting st
  /\ answer get_queue_stats (stateAfter (post_download url) st) = answer get_queue_stats st.
Proof.
  intros H.
  assert (E : post_download url st =
              (Return (Rejected 400 (if truthy url then "Invalid Apple Music URL"
                                     else "URL is required")), st)).
  { destruct H as [-> | [-> | (s & -> & Hv)]]; [reflexivity | reflexivity |].
    rewrite (post_download_invalid s st Hv). cbn [truthy].
    destruct (isEmpty s); reflexivity. }
  split; [exact E|].
  unfold stateAfter. rewrite E. repeat split; reflexivity.
Qed.

(** ** A hit returns what the completion recorded *)

(** C8. Let a job for the url [b] complete with [result] at [st0], and let
    [st] be any later state that still holds the entry written then, within
    its time to live, with the file of the result in place. A valid
    submission of a url with the normal form of [b] is answered from the
    cache with exactly [result] - success flag, file url, file name and job
    id - under the job id of [result] and the clock reading of the
    completion. *)
Theorem cache_hit_returns_recorded_result job b result st0 a st :
  j_url job = JStr b ->
  normalize a = normalize b ->
  passesValidation a = true ->
  redis st !! getCacheKey b =
    redis (stateAfter (onCompleted job result) st0) !! getCacheKey b ->
  now st <= now st0 + CACHE_TTL_SECONDS * 1000 ->
  fs_exists (jobId result) (fileName result) st = true ->
  answer (post_download (JStr a)) st =
    Return (FromCache (jobId result) (now st0) result (statusUrlOf (jobId result)))
  /\ jobResults (stateAfter (onCompleted job result) st0) !! j_jobId job =
       Some (OutcomeCompleted result).
Proof.
  intros Hb Hn Hv Hr Ht Hf. unfold answer.
  rewrite (hit_after_completion job b result st0 a st Hb Hn Hv Hr Ht Hf).
  destruct (onCompleted_effect job b result st0 Hb) as (_ & _ & Hjr & _).
  rewrite Hjr, lookup_insert_eq. split; reflexivity.
Qed.

(** ** Clearing the queue *)


Lemma forEach_pkill (jobs : list Job) st :
  forEach jobs (fun _ => pkill) st =
    (Return tt, withLog (log st ++ List.repeat Pkill (length jobs)) st).
Proof.
  revert st. induction jobs as [|j jobs IH]; intros st.
  - cbn. rewrite app_nil_r. destruct st; reflexivity.
  - cbn [forEach]. unfold_monad. unfold pkill at 1. unfold modify.
    rewrite IH. unfold withLog. cbn. rewrite <- app_assoc. reflexivity.
Qed.

Lemma post_queue_clear_effect st :
  post_queue_clear st =
    (Return (Ok (mkCleared
                   (mkQueueStats (length (waiting st)) (length (active st))
                      (length (completed st)) (length (failed st))
                      (length (waiting st) + length (active st)
                       + length (completed st) + length (failed st))%nat)
                   (size (jobResults st)))),
     set_jobResults (fun _ => ∅)
       (emit QueueObliterate
          (set_queue [] [] [] []
             (withLog (log st ++ List.repeat Pkill (length (active st))) st)))).
Proof.
  unfold post_queue_clear, getCounts. unfold_monad. cbn beta iota.
  rewrite forEach_pkill. reflexivity.
Qed.

(** The answer to a submission is a function of the clock, the cache, the
    files and the id generator; the queue and the result map do not enter. *)
Lemma post_download_answer_ext url st1 st2 :
  now st1 = now st2 -> redis st1 = redis st2 -> disk st1 = disk st2 ->
  uuidSource st1 = uuidSource st2 -> uuidsDrawn st1 = uuidsDrawn st2 ->
  answer (post_download url) st1 = answer (post_download url) st2.
Proof.
  intros Hn Hr Hd Hu Hk. unfold answer.
  assert (Hl : forall k, redis_lookup k st1 = redis_lookup k st2).
  { intros k. unfold redis_lookup. rewrite Hn, Hr. reflexivity. }
  assert (Hf : forall i f, fs_exists i f st1 = fs_exists i f st2).
  { intros i f. unfold fs_exists. rewrite Hd. reflexivity. }
  destruct url as [| |b|n|s|elems|fields];
    try (unfold post_download; run; reflexivity).
  - unfold post_download; run. destruct b; reflexivity.
  - unfold post_download; run. destruct (n =? 0); reflexivity.
  - destruct (passesValidation s) eqn:Hv.
    2:{ rewrite !post_download_invalid by exact Hv. reflexivity. }
    destruct (redis_lookup (getCacheKey s) st2) as [c|] eqn:Hl2.
    2:{ rewrite !post_download_miss by (try rewrite Hl; assumption).
        cbn. rewrite Hu, Hk. reflexivity. }
    destruct (fs_exists (c_jobId c) (c_fileName c) st2) eqn:Hf2.
    + rewrite (post_download_hit s st1 c), (post_download_hit s st2 c);
        try assumption; try (rewrite Hl; assumption); try (rewrite Hf; assumption).
      reflexivity.
    + rewrite (post_download_stale s st1 c), (post_download_stale s st2 c);
        try assumption; try (rewrite Hl; assumption); try (rewrite Hf; assumption).
      cbn. rewrite Hu, Hk. reflexivity.
  - unfold post_download; run.
    destruct (existsb (isStr "music.apple.com") elems); reflexivity.
Qed.

(** C9. Clearing the queue empties the four job lists and the result map,
    and leaves the cache, the files, the timers and the clock as they
    were; the only calls it makes are [pkill], once per active job, and
    [obliterate]. Every submission is therefore answered after the clearing
    as it would have been before it; in particular a url with a live,
    valid entry is still served from the cache under the job id of that
    entry. *)
Theorem clear_queue_leaves_cache_alone st :
  let st' := stateAfter post_queue_clear st in
  (redis st' = redis st /\ disk st' = disk st /\ timers st' = timers st /\ now st' = now st)
  /\ (waiting st' = [] /\ active st' = [] /\ completed st' = [] /\ failed st' = []
      /\ jobResults st' = ∅)
  /\ log st' = (log st ++ List.repeat Pkill (length (active st)) ++ [QueueObliterate])%list
  /\ (forall url, answer (post_download url) st' = answer (post_download url) st)
  /\ (forall url c,
        passesValidation url = true ->
        redis_lookup (getCacheKey url) st = Some c ->
        valid c st = true ->
        answer (post_download (JStr url)) st' =
          Return (FromCache (c_jobId c) (c_cachedAt c) (resultOf c) (statusUrlOf (c_jobId c)))).
Proof.
  intros st'. subst st'. unfold stateAfter. rewrite post_queue_clear_effect. cbn [snd].
  assert (Hsame : forall url,
             answer (post_download url)
               (set_jobResults (fun _ => ∅)
                  (emit QueueObliterate
                     (set_queue [] [] [] []
                        (withLog (log st ++ List.repeat Pkill (length (active st))) st))))
             = answer (post_download url) st).
  { intros url. apply post_download_answer_ext; reflexivity. }
  split; [repeat split; reflexivity|].
  split; [repeat split; reflexivity|].
  split; [cbn; rewrite <- app_assoc; reflexivity|].
  split; [exact Hsame|].
  intros url c Hv Hl Hvalid. rewrite Hsame. rewrite valid_fs_exists in Hvalid.
  unfold answer. rewrite (post_download_hit url st c Hv Hl Hvalid). reflexivity.
Qed.

(** ** Where cache records come from *)

Lemma post_download_redis url st key v :
  redis (stateAfter (post_download url) st) !! key = Some v ->
  redis st !! key = Some v.
Proof.
  unfold stateAfter.
  assert (Hstr : (exists s, url = JStr s) \/ forall s, url <> JStr s).
  { destruct url; try (right; intros s; discriminate). left; eauto. }
  destruct Hstr as [[s ->] | Hns].
  2:{ destruct (post_download_not_a_string url st Hns) as (status & message & ->).
      auto. }
  destruct (passesValidation s) eqn:Hv.
  2:{ rewrite (post_download_invalid s st Hv). auto. }
  destruct (redis_lookup (getCacheKey s) st) as [c|] eqn:Hl.
  2:{ rewrite (post_download_miss s st Hv Hl). auto. }
  destruct (fs_exists (c_jobId c) (c_fileName c) st) eqn:Hf.
  - rewrite (post_download_hit s st c Hv Hl Hf). auto.
  - rewrite (post_download_stale s st c Hv Hl Hf). cbn.
    intros [_ H]%lookup_delete_Some. exact H.
Qed.

Lemma onCompleted_redis job result st key v :
  redis (stateAfter (onCompleted job result) st) !! key = Some v ->
  redis st !! key = Some v \/ exists t, v = (cacheRecordOf result (now st), t).
Proof.
  unfold stateAfter, onCompleted.
  destruct (j_url job); run; auto.
  intros [[_ <-] | [_ H]]%lookup_insert_Some; eauto.
Qed.

Lemma succeeds_processor job run st :
  answer (processor job run) st =
    if succeeds run
    then Return (resultFor job (List.hd "" (findM4aFiles (leftInDir run))) st)
    else answer (processor job run) st.
Proof.
  unfold answer, succeeds. rewrite processor_outcome. cbn [fst].
  destruct (settled run); [|reflexivity].
  destruct (findM4aFiles (leftInDir run)); reflexivity.
Qed.

Lemma fails_processor job run st :
  succeeds run = false ->
  exists message, answer (processor job run) st = Throw message.
Proof.
  unfold answer, succeeds. rewrite processor_outcome. cbn [fst].
  destruct (settled run); [|eauto].
  destruct (findM4aFiles (leftInDir run)); [eauto | discriminate].
Qed.

(** One step adds a record carrying a job id only if it is a job with that
    id completing. *)
Lemma perform_cachedFor id op st :
  completesJob id op = false ->
  cachedFor id (perform op st) -> cachedFor id st.
Proof.
  intros Hop (key & [c expiresAt] & Hk & Hid). cbn [fst] in Hid.
  assert (Hsame : redis (perform op st) = redis st -> cachedFor id st).
  { intros E. rewrite E in Hk. exists key, (c, expiresAt). auto. }
  destruct op as [url | id' | | | | job run | ms | id']; cbn [perform] in *.
  - exists key, (c, expiresAt). split; [|exact Hid].
    apply (post_download_redis url st), Hk.
  - apply Hsame. reflexivity.
  - apply Hsame. reflexivity.
  - apply Hsame. unfold stateAfter. rewrite post_queue_clear_effect. reflexivity.
  - apply Hsame. unfold stateAfter, takeNext. destruct (waiting st); reflexivity.
  - cbn [completesJob] in Hop.
    destruct (succeeds run) eqn:Hs.
    + rewrite andb_true_r in Hop. apply String.eqb_neq in Hop.
      pose proof (succeeds_processor job run st) as Hret. rewrite Hs in Hret.
      rewrite (runJob_success job run st _ Hret) in Hk.
      apply onCompleted_redis in Hk. destruct Hk as [Hk | [t Ht]].
      * exists key, (c, expiresAt). auto.
      * injection Ht as -> _. cbn in Hid. contradiction.
    + destruct (fails_processor job run st Hs) as [message Hthrow].
      destruct (runJob_failure job run st message Hthrow) as (_ & _ & _ & Hr & _).
      apply Hsame, Hr.
  - apply Hsame. destruct (elapse_effect ms st) as (_ & Hr & _). exact Hr.
  - apply Hsame. reflexivity.
Qed.

(** Over any history: a job id that no record carries, and under which no
    job completes, is carried by no record afterwards. *)
Lemma performAll_cachedFor id ops st :
  List.forallb (fun op => negb (completesJob id op)) ops = true ->
  ~ cachedFor id st ->
  ~ cachedFor id (performAll ops st).
Proof.
  revert st. induction ops as [|op ops IH]; intros st Hops Hst; [exact Hst|].
  cbn in Hops. apply andb_prop in Hops as [Hop Hrest].
  apply negb_true_iff in Hop. cbn [performAll List.fold_left].
  apply (IH (perform op st) Hrest).
  intros H. apply Hst. exact (perform_cachedFor id op st Hop H).
Qed.

(** ** Failed jobs *)

Lemma no_files_no_m4a dir : depositedFiles dir = [] -> findM4aFiles dir = [].
Proof. intros H. rewrite findM4aFiles_depositedFiles, H. reflexivity. Qed.

(** C4. A run that exits with 0 and leaves no file below the job's
    directory ends as a failed job: the result map holds the error
    [No M4A file found after download], the job is filed under failed, and
    a status query answers with that outcome. And whenever the processor
    throws - the producer's promise rejects (non-zero exit, timeout), or no
    file is found - the run leaves Redis as it was and makes no call to it;
    and whatever happens later, as long as no job with that id completes,
    no record in the cache store carries the id of the failed job. *)
Theorem failed_jobs_are_recorded_and_never_cached job run st :
  (settled run = Exited0 ->
   depositedFiles (leftInDir run) = [] ->
   let st' := stateAfter (runJob job run) st in
   jobResults st' !! j_jobId job = Some (OutcomeFailed "No M4A file found after download")
   /\ failed st' = (failed st ++ [(job, "No M4A file found after download")])%list
   /\ completed st' = completed st
   /\ answer (get_status (j_jobId job)) st' =
        Return (Tracked (OutcomeFailed "No M4A file found after download")))
  /\ (forall message,
        settled run = ExecRejected message
        \/ (settled run = Exited0 /\ findM4aFiles (leftInDir run) = []
            /\ message = "No M4A file found after download") ->
        let st' := stateAfter (runJob job run) st in
        answer (processor job run) st = Throw message
        /\ jobResults st' !! j_jobId job = Some (OutcomeFailed message)
        /\ redis st' = redis st
        /\ log st' = log st
        /\ (forall later,
              List.forallb (fun op => negb (completesJob (j_jobId job) op)) later = true ->
              ~ cachedFor (j_jobId job) st ->
              ~ cachedFor (j_jobId job) (performAll later st'))).
Proof.
  split.
  - intros Hs Hnone st'. subst st'.
    assert (Hthrow : answer (processor job run) st = Throw "No M4A file found after download").
    { unfold answer. rewrite processor_outcome, Hs, (no_files_no_m4a _ Hnone). reflexivity. }
    destruct (runJob_failure job run st _ Hthrow) as (Hjr & Hf & Hc & _).
    unfold answer, get_status, tryCatch, gets. cbn [fst].
    rewrite Hjr, Hf, Hc, lookup_insert_eq. repeat split; reflexivity.
  - intros message Hcase st'. subst st'.
    assert (Hthrow : answer (processor job run) st = Throw message).
    { unfold answer. rewrite processor_outcome.
      destruct Hcase as [-> | (-> & -> & ->)]; reflexivity. }
    destruct (runJob_failure job run st _ Hthrow) as (Hjr & _ & _ & Hr & Hl).
    rewrite Hjr, lookup_insert_eq. repeat split; try assumption.
    intros later Hlater Hfresh. apply performAll_cachedFor; [exact Hlater|].
    unfold cachedFor. rewrite Hr. exact Hfresh.
Qed.

(** ** What counts as a produced file *)

Lemma onCompleted_jobResults job result st :
  jobResults (stateAfter (onCompleted job result) st) =
  <[j_jobId job := OutcomeCompleted result]> (jobResults st).
Proof.
  unfold stateAfter, onCompleted.
  destruct (j_url job); run; reflexivity.
Qed.

(** C10. [findM4aFiles] returns, in enumeration order, the relative paths
    of exactly the files below the directory whose name ends in [.m4a].
    A run that exits with 0 but leaves only files without that suffix is a
    failed job. A run that exits with 0 and leaves such files completes
    with a result built from the first of them alone: its path is the file
    name, and the file url is the base url, [/downloads/], the job id and
    that path; no other file enters the result. *)
Theorem success_is_decided_by_m4a_files :
  (forall dir, findM4aFiles dir = List.map fst (List.filter isM4a (depositedFiles dir)))
  /\ (forall job run st,
        settled run = Exited0 ->
        List.forallb (fun pn => negb (isM4a pn)) (depositedFiles (leftInDir run)) = true ->
        answer (processor job run) st = Throw "No M4A file found after download"
        /\ jobResults (stateAfter (runJob job run) st) !! j_jobId job =
             Some (OutcomeFailed "No M4A file found after download"))
  /\ (forall job run st first others,
        settled run = Exited0 ->
        List.map fst (List.filter isM4a (depositedFiles (leftInDir run))) = first :: others ->
        let result :=
          {| success := true;
             fileUrl := baseUrl st ++ "/downloads/" ++ j_jobId job ++ "/" ++ first;
             fileName := first;
             jobId := j_jobId job |} in
        answer (processor job run) st = Return result
        /\ jobResults (stateAfter (runJob job run) st) !! j_jobId job =
             Some (OutcomeCompleted result)).
Proof.
  split; [exact findM4aFiles_depositedFiles|]. split.
  - intros job run st Hs Hnone.
    assert (Hthrow : answer (processor job run) st = Throw "No M4A file found after download").
    { unfold answer. rewrite processor_outcome, Hs, findM4aFiles_depositedFiles.
      rewrite (filter_none _ _ Hnone). reflexivity. }
    split; [exact Hthrow|].
    destruct (runJob_failure job run st _ Hthrow) as (Hjr & _).
    rewrite Hjr. apply lookup_insert_eq.
  - intros job run st first others Hs Hfiles result.
    assert (Hret : answer (processor job run) st = Return result).
    { unfold answer. rewrite processor_outcome, Hs, findM4aFiles_depositedFiles, Hfiles.
      reflexivity. }
    split; [exact Hret|].
    rewrite (runJob_success job run st result Hret), onCompleted_jobResults.
    apply lookup_insert_eq.
Qed.

(** ** The theorems at the sample run *)

(** The record the sample run cached. *)
Lemma sample_record :
  redis_lookup (getCacheKey Sample.url) Sample.cached = Some Sample.record
  /\ Sample.record = cacheRecordOf Sample.result 0
  /\ Sample.result = resultFor Sample.job "Artist/Album/01 Song.m4a" Sample.boot.
Proof. vm_compute. repeat split; reflexivity. Qed.

Lemma cache_read_serves_only_valid_records_witness :
  (exists s c,
      JStr Sample.shouted = JStr s
      /\ redis_lookup (getCacheKey s) Sample.cached = Some c
      /\ valid c Sample.cached = true
      /\ Sample.uuids 0 = c_jobId c /\ 0 = c_cachedAt c /\ Sample.result = resultOf c)
  /\ (redis (stateAfter (post_download (JStr Sample.url)) Sample.gone)
        !! getCacheKey Sample.url = None
      /\ answer (post_download (JStr Sample.url)) Sample.gone =
         answer (post_download (JStr Sample.url))
           (set_redis (delete (getCacheKey Sample.url)) Sample.gone)).
Proof.
  split.
  - apply (proj1 cache_read_serves_only_valid_records
             (JStr Sample.shouted) Sample.cached (Sample.uuids 0) 0 Sample.result
             (statusUrlOf (Sample.uuids 0))).
    vm_compute. reflexivity.
  - apply (proj2 cache_read_serves_only_valid_records
             Sample.url Sample.gone Sample.record);
      vm_compute; reflexivity.
Defined.

Lemma stale_entry_falls_through_witness :
  passesValidation Sample.url = true /\ staleFallsThrough Sample.url Sample.gone.
Proof.
  split; [reflexivity|].
  apply (stale_entry_falls_through Sample.url Sample.gone). reflexivity.
Defined.

(** The amended C2 is not vacuous at the sample: the stale entry is there. *)
Example stale_entry_at_sample :
  redis_lookup (getCacheKey Sample.url) Sample.gone = Some Sample.record
  /\ valid Sample.record Sample.gone = false
  /\ answer (post_download (JStr Sample.url)) Sample.gone =
       Return (Queued (Sample.uuids 1) (statusUrlOf (Sample.uuids 1))).
Proof. vm_compute. repeat split; reflexivity. Qed.

(** C2 as stated fails. The validation compares [music.apple.com] with
    the case of the letters as given, while the key is folded to lower
    case: a url with the host in capitals has the key of the cached url,
    its entry is stale, and the submission is turned away with status 400,
    the entry kept and no job queued. *)
Lemma stale_entry_behind_rejected_url :
  (redis_lookup (getCacheKey Sample.capitals) Sample.gone = Some Sample.record
   /\ valid Sample.record Sample.gone = false)
  /\ post_download (JStr Sample.capitals) Sample.gone =
       (Return (Rejected 400 "Invalid Apple Music URL"), Sample.gone)
  /\ ~ staleFallsThrough Sample.capitals Sample.gone.
Proof.
  assert (Hentry : redis_lookup (getCacheKey Sample.capitals) Sample.gone = Some Sample.record)
    by (vm_compute; reflexivity).
  assert (Hstale : valid Sample.record Sample.gone = false) by (vm_compute; reflexivity).
  split; [split; assumption|].
  split; [apply post_download_invalid; reflexivity|].
  intros H. destruct (H Sample.record Hentry Hstale) as (_ & Hanswer & _).
  unfold answer in Hanswer.
  rewrite post_download_invalid in Hanswer by reflexivity.
  discriminate Hanswer.
Qed.

Lemma deletion_timer_matches_cache_expiry_witness :
  let st' := stateAfter (onCompleted Sample.job Sample.result) Sample.boot in
  let expiresAt := now Sample.boot + CACHE_TTL_SECONDS * 1000 in
  redis st' !! getCacheKey Sample.url = Some (cacheRecordOf Sample.result (now Sample.boot), expiresAt)
  /\ List.filter (fun t => match action t with DeleteDownloads _ => true | _ => false end)
                 (List.skipn (length (timers Sample.boot)) (timers st'))
     = [mkTimer expiresAt (DeleteDownloads (j_jobId Sample.job))]
  /\ List.skipn (length (log Sample.boot)) (log st')
     = [RedisSetex (getCacheKey Sample.url) CACHE_TTL_SECONDS
          (cacheRecordOf Sample.result (now Sample.boot))]
  /\ timerDelay (CACHE_TTL_SECONDS * 1000) = CACHE_TTL_SECONDS * 1000
  /\ CACHE_TTL_SECONDS = CACHE_TTL_DAYS * 86400.
Proof.
  exact (deletion_timer_matches_cache_expiry Sample.job Sample.url Sample.result
           Sample.boot eq_refl).
Defined.

Lemma failed_jobs_are_recorded_and_never_cached_witness :
  (let st' := stateAfter (runJob Sample.job Sample.noOutput) Sample.submitted in
   jobResults st' !! j_jobId Sample.job = Some (OutcomeFailed "No M4A file found after download")
   /\ failed st' = (failed Sample.submitted ++ [(Sample.job, "No M4A file found after download")])%list
   /\ completed st' = completed Sample.submitted
   /\ answer (get_status (j_jobId Sample.job)) st' =
        Return (Tracked (OutcomeFailed "No M4A file found after download")))
  /\ (let st' := stateAfter (runJob Sample.job Sample.timedOut) Sample.submitted in
      answer (processor Sample.job Sample.timedOut) Sample.submitted =
        Throw "Command failed: gamdl"
      /\ jobResults st' !! j_jobId Sample.job = Some (OutcomeFailed "Command failed: gamdl")
      /\ redis st' = redis Sample.submitted
      /\ log st' = log Sample.submitted
      /\ (forall later,
            List.forallb (fun op => negb (completesJob (j_jobId Sample.job) op)) later = true ->
            ~ cachedFor (j_jobId Sample.job) Sample.submitted ->
            ~ cachedFor (j_jobId Sample.job) (performAll later st'))).
Proof.
  split.
  - apply (proj1 (failed_jobs_are_recorded_and_never_cached
                    Sample.job Sample.noOutput Sample.submitted)); reflexivity.
  - apply (proj2 (failed_jobs_are_recorded_and_never_cached
                    Sample.job Sample.timedOut Sample.submitted)
             "Command failed: gamdl").
    left. reflexivity.
Defined.

Lemma key_normalization_is_canonical_witness :
  normalize (" " ++ "URL" ++ " ") = normalize "URL"
  /\ getCacheKey Sample.shouted = getCacheKey Sample.url
  /\ (let st' := stateAfter (onCompleted Sample.job Sample.result)
                   (afterRun Sample.job Sample.goodRun Sample.submitted) in
      List.skipn (length (log Sample.submitted)) (log st') =
        [RedisSetex (getCacheKey Sample.url) CACHE_TTL_SECONDS
           (cacheRecordOf Sample.result (now Sample.submitted))]
      /\ post_download (JStr Sample.shouted) st' =
           (Return (FromCache (jobId Sample.result) (now Sample.submitted) Sample.result
                      (statusUrlOf (jobId Sample.result))),
            emit (RedisGet (getCacheKey Sample.url)) st')).
Proof.
  destruct key_normalization_is_canonical as (_ & Hws & _ & _ & _ & Hkey & Hpaths).
  split; [apply (Hws " " "URL" " "); reflexivity|].
  split; [apply (Hkey Sample.shouted Sample.url); reflexivity|].
  apply (Hpaths Sample.shouted Sample.url Sample.job Sample.result
           (afterRun Sample.job Sample.goodRun Sample.submitted));
    vm_compute; reflexivity.
Defined.

Lemma invalid_submission_is_rejected_up_front_witness :
  post_download (JStr "https://example.com/track/1") Sample.cached =
    (Return (Rejected 400 (if truthy (JStr "https://example.com/track/1")
                           then "Invalid Apple Music URL" else "URL is required")),
     Sample.cached)
  /\ log (stateAfter (post_download (JStr "https://example.com/track/1")) Sample.cached)
     = log Sample.cached
  /\ uuidsDrawn (stateAfter (post_download (JStr "https://example.com/track/1")) Sample.cached)
     = uuidsDrawn Sample.cached
  /\ waiting (stateAfter (post_download (JStr "https://example.com/track/1")) Sample.cached)
     = waiting Sample.cached
  /\ answer get_queue_stats
       (stateAfter (post_download (JStr "https://example.com/track/1")) Sample.cached)
     = answer get_queue_stats Sample.cached.
Proof.
  apply (invalid_submission_is_rejected_up_front
           (JStr "https://example.com/track/1") Sample.cached).
  right. right. exists "https://example.com/track/1". split; reflexivity.
Defined.

Lemma cache_hit_returns_recorded_result_witness :
  answer (post_download (JStr Sample.shouted)) Sample.cached =
    Return (FromCache (jobId Sample.result) (now Sample.submitted) Sample.result
              (statusUrlOf (jobId Sample.result)))
  /\ jobResults (stateAfter (onCompleted Sample.job Sample.result) Sample.submitted)
       !! j_jobId Sample.job = Some (OutcomeCompleted Sample.result).
Proof.
  apply (cache_hit_returns_recorded_result Sample.job Sample.url Sample.result
           Sample.submitted Sample.shouted Sample.cached).
  - reflexivity.
  - reflexivity.
  - reflexivity.
  - vm_compute. reflexivity.
  - apply Z.leb_le. vm_compute. reflexivity.
  - vm_compute. reflexivity.
Defined.

Lemma clear_queue_leaves_cache_alone_witness :
  answer (post_download (JStr Sample.url)) (stateAfter post_queue_clear Sample.cached) =
    Return (FromCache (c_jobId Sample.record) (c_cachedAt Sample.record)
              (resultOf Sample.record) (statusUrlOf (c_jobId Sample.record))).
Proof.
  apply (proj2 (proj2 (proj2 (proj2 (clear_queue_leaves_cache_alone Sample.cached))))
           Sample.url Sample.record);
    vm_compute; reflexivity.
Defined.

(** After the clearing, the statistics are all zero and the old job id is
    still what a submission of the cached url gets. *)
Example sample_cleared :
  let st' := stateAfter post_queue_clear Sample.cached in
  answer get_queue_stats st' = Return (Ok (mkQueueStats 0 0 0 0 0))
  /\ answer (get_status (Sample.uuids 0)) st' = Return (StatusError 404 "Job not found")
  /\ answer (post_download (JStr Sample.url)) st' =
       Return (FromCache (Sample.uuids 0) 0 Sample.result (statusUrlOf (Sample.uuids 0))).
Proof. vm_compute. repeat split; reflexivity. Qed.

Lemma success_is_decided_by_m4a_files_witness :
  (answer (processor Sample.job Sample.noTrack) Sample.submitted =
     Throw "No M4A file found after download"
   /\ jobResults (stateAfter (runJob Sample.job Sample.noTrack) Sample.submitted)
        !! j_jobId Sample.job = Some (OutcomeFailed "No M4A file found after download"))
  /\ (let result :=
        {| success := true;
           fileUrl := baseUrl Sample.submitted ++ "/downloads/" ++ j_jobId Sample.job
                      ++ "/" ++ "Artist/Album/01 Song.m4a";
           fileName := "Artist/Album/01 Song.m4a";
           jobId := j_jobId Sample.job |} in
      answer (processor Sample.job Sample.goodRun) Sample.submitted = Return result
      /\ jobResults (stateAfter (runJob Sample.job Sample.goodRun) Sample.submitted)
           !! j_jobId Sample.job = Some (OutcomeCompleted result)).
Proof.
  destruct success_is_decided_by_m4a_files as (_ & Hnone & Hfirst).
  split.
  - apply (Hnone Sample.job Sample.noTrack Sample.submitted); reflexivity.
  - apply (Hfirst Sample.job Sample.goodRun Sample.submitted
             "Artist/Album/01 Song.m4a" ["Artist/Album/02 Other.m4a"]);
      reflexivity.
Defined.

(** The job fails, the url is submitted again and the second job succeeds:
    the cache then holds a record for the second job and none for the
    first. *)
Example sample_retry :
  let retry := mkJob (JStr Sample.url) (Sample.uuids 1) in
  let later := [OpSubmit (JStr Sample.url); OpTake; OpRun retry Sample.goodRun;
                OpStatus (Sample.uuids 0); OpElapse 1000] in
  let st' := performAll (OpTake :: OpRun Sample.job Sample.timedOut :: later) Sample.submitted in
  ~ cachedFor (Sample.uuids 0) st'
  /\ cachedFor (Sample.uuids 1) st'
  /\ answer (get_status (Sample.uuids 0)) st' =
       Return (Tracked (OutcomeFailed "Command failed: gamdl")).
Proof.
  cbn zeta. split; [|split].
  - apply (bool_decide_unpack _). vm_compute. reflexivity.
  - apply (bool_decide_unpack _). vm_compute. reflexivity.
  - vm_compute. reflexivity.
Qed.

(** * Further properties of [server.js] *)

(** ** The paths [findM4aFiles] returns *)

Lemma substring_skip a k m p :
  String.substring (String.length a + k) m (a ++ p) = String.substring k m p.
Proof. induction a as [|c a IH]; [reflexivity | exact IH]. Qed.

Lemma length_append a p :
  String.length (a ++ p) = (String.length a + String.length p)%nat.
Proof. induction a as [|c a IH]; [reflexivity | exact (f_equal S IH)]. Qed.

(** What ends a path still ends it behind a prefix. *)
Lemma endsWith_behind a p suffix :
  endsWith p suffix = true -> endsWith (a ++ p) suffix = true.
Proof.
  unfold endsWith. cbv zeta. intros [Hlen Heq]%andb_prop. apply Nat.leb_le in Hlen.
  rewrite length_append. apply andb_true_intro. split; [apply Nat.leb_le; lia|].
  replace (String.length a + String.length p - String.length suffix)%nat
    with (String.length a + (String.length p - String.length suffix))%nat by lia.
  rewrite substring_skip. exact Heq.
Qed.

Lemma findM4aIn_endsWith e p :
  In p (findM4aIn e) -> endsWith p ".m4a" = true.
Proof.
  revert p. induction e as [name | name children IH] using entry_tree_ind; intros p.
  - cbn. destruct (endsWith name ".m4a") eqn:E; [intros [<- | []]; exact E | intros []].
  - cbn [findM4aIn]. intros (q & <- & Hq)%List.in_map_iff.
    apply List.in_flat_map in Hq as (c & Hc & Hq).
    unfold pathJoin. apply endsWith_behind, endsWith_behind.
    rewrite List.Forall_forall in IH. exact (IH c Hc q Hq).
Qed.

(** *** Paths and their segments *)

Lemma no_separator_head c r :
  includes (String c r) "/" = false -> c <> "/"%char /\ includes r "/" = false.
Proof.
  change (includes (String c r) "/")
    with ((if ascii_dec "/" c then startsWith r "" else false) || includes r "/").
  destruct (ascii_dec "/" c) as [<- | Hne].
  - destruct r; discriminate.
  - intros H. split; [congruence | exact H].
Qed.

Lemma splitOn_join a b :
  includes a "/" = false ->
  splitOn "/" (a ++ "/" ++ b) = a :: splitOn "/" b.
Proof.
  induction a as [|c a IH]; intros Ha; [reflexivity|].
  apply no_separator_head in Ha as [Hc Ha].
  change (String c a ++ "/" ++ b) with (String c (a ++ "/" ++ b)).
  cbn [splitOn]. destruct (ascii_dec c "/") as [-> | _]; [contradiction|].
  rewrite (IH Ha). reflexivity.
Qed.

Lemma splitOn_name a :
  includes a "/" = false -> splitOn "/" a = [a].
Proof.
  induction a as [|c a IH]; intros Ha; [reflexivity|].
  apply no_separator_head in Ha as [Hc Ha].
  cbn [String.append splitOn]. destruct (ascii_dec c "/") as [-> | _]; [contradiction|].
  rewrite (IH Ha). reflexivity.
Qed.

Lemma cleanName_inv name :
  cleanName name = true ->
  String.eqb name "" = false /\ String.eqb name "." = false /\ includes name "/" = false.
Proof.
  unfold cleanName. intros [[[H1 H2]%andb_prop _]%andb_prop H3]%andb_prop.
  apply negb_true_iff in H1, H2, H3. repeat split; try assumption.
  destruct name; [discriminate | reflexivity].
Qed.

Lemma segments_join name p :
  cleanName name = true -> segments (pathJoin name p) = name :: segments p.
Proof.
  intros (H1 & H2 & H3)%cleanName_inv. unfold segments, pathJoin.
  rewrite (splitOn_join _ _ H3). cbn [List.filter]. rewrite H1, H2. reflexivity.
Qed.

Lemma segments_name name :
  cleanName name = true -> segments name = [name].
Proof.
  intros (H1 & H2 & H3)%cleanName_inv. unfold segments.
  rewrite (splitOn_name _ H3). cbn [List.filter]. rewrite H1, H2. reflexivity.
Qed.

(** In a directory without a repeated name, looking a name up finds the
    entry that bears it. *)
Lemma find_by_name dir e :
  NoDup (List.map entryName dir) -> In e dir ->
  List.find (fun e' => String.eqb (entryName e') (entryName e)) dir = Some e.
Proof.
  induction dir as [|d dir IH]; intros Hnd Hin; [destruct Hin|].
  cbn in Hnd. apply NoDup_cons in Hnd as [Hd Hnd]. cbn [List.find].
  destruct Hin as [-> | Hin].
  - rewrite String.eqb_refl. reflexivity.
  - destruct (String.eqb_spec (entryName d) (entryName e)) as [Heq | _].
    + exfalso. apply Hd. rewrite Heq. apply list_elem_of_In, List.in_map, Hin.
    + apply IH; assumption.
Qed.

Lemma filesIn_resolves e :
  wellFormedEntry e = true ->
  forall p name, In (p, name) (filesIn e) ->
  forall dir, In e dir -> NoDup (List.map entryName dir) ->
  resolves dir (segments p) = true.
Proof.
  induction e as [name | name children IH] using entry_tree_ind;
    intros Hwf p nm Hin dir Hdir Hnd.
  - cbn in Hwf, Hin. destruct Hin as [[= <- <-] | []].
    rewrite (segments_name _ Hwf). cbn [resolves].
    pose proof (find_by_name dir (File name) Hnd Hdir) as Hfind.
    cbn [entryName] in Hfind. rewrite Hfind. reflexivity.
  - cbn [wellFormedEntry] in Hwf.
    apply andb_prop in Hwf as [[Hname Hkids]%andb_prop Hdistinct].
    apply bool_decide_eq_true in Hdistinct.
    cbn [filesIn] in Hin. apply List.in_map_iff in Hin as ([q nm'] & [= <- <-] & Hq).
    apply List.in_flat_map in Hq as (c & Hc & Hq). cbn [fst].
    rewrite (segments_join _ _ Hname). cbn [resolves].
    pose proof (find_by_name dir (Dir name children) Hnd Hdir) as Hfind.
    cbn [entryName] in Hfind. rewrite Hfind.
    rewrite List.Forall_forall in IH. rewrite List.forallb_forall in Hkids.
    exact (IH c Hc (Hkids c Hc) q nm' Hq children Hc Hdistinct).
Qed.

Lemma findM4aFiles_resolve dir p :
  wellFormed dir = true -> In p (findM4aFiles dir) ->
  resolves dir (segments p) = true.
Proof.
  unfold wellFormed. intros [Hall Hnd]%andb_prop Hin.
  apply bool_decide_eq_true in Hnd. rewrite List.forallb_forall in Hall.
  rewrite findM4aFiles_depositedFiles in Hin.
  apply List.in_map_iff in Hin as ([q name] & <- & Hq).
  apply List.filter_In in Hq as [Hq _].
  apply List.in_flat_map in Hq as (e & He & Hq).
  exact (filesIn_resolves e (Hall e He) q name Hq dir He Hnd).
Qed.

Lemma findM4aFiles_endsWith dir p :
  In p (findM4aFiles dir) -> endsWith p ".m4a" = true.
Proof.
  intros (e & _ & Hp)%List.in_flat_map. exact (findM4aIn_endsWith e p Hp).
Qed.

(** X1. Every path [findM4aFiles] returns ends in [.m4a], also the paths
    of files in subdirectories, which are joined with the directory names.
    So the file name and the file url of every result the processor
    returns end in [.m4a]. *)
Theorem found_paths_end_in_m4a :
  (forall dir, List.Forall (fun p => endsWith p ".m4a" = true) (findM4aFiles dir))
  /\ (forall job run st result,
        answer (processor job run) st = Return result ->
        endsWith (fileName result) ".m4a" = true
        /\ endsWith (fileUrl result) ".m4a" = true
        /\ jobId result = j_jobId job /\ success result = true).
Proof.
  split.
  - intros dir. apply List.Forall_forall. intros p. apply findM4aFiles_endsWith.
  - intros job run st result. unfold answer. rewrite processor_outcome. cbn [fst].
    destruct (settled run); [|discriminate].
    destruct (findM4aFiles (leftInDir run)) as [|first others] eqn:Hfiles; [discriminate|].
    intros [= <-]. cbn [fileName fileUrl jobId success resultFor].
    assert (Hfirst : endsWith first ".m4a" = true).
    { apply (findM4aFiles_endsWith (leftInDir run)). rewrite Hfiles. left. reflexivity. }
    repeat split; try exact Hfirst.
    repeat apply endsWith_behind. exact Hfirst.
Qed.

(** X2. On a listing as a file system has it (clean names, none twice in
    a directory), every path [findM4aFiles] returns is one that
    [cacheFilesExist] finds under the directory that was enumerated. *)
Theorem found_paths_exist st id dir :
  disk st !! id = Some dir ->
  wellFormed dir = true ->
  List.Forall (fun p => cacheFilesExist id p st = (Return true, st)) (findM4aFiles dir).
Proof.
  intros Hdir Hwf. apply List.Forall_forall. intros p Hp.
  unfold cacheFilesExist, gets, fs_exists. rewrite Hdir.
  rewrite (findM4aFiles_resolve dir p Hwf Hp). reflexivity.
Qed.

(** X3. A job that completes is served from the cache at once: after a run
    that exits with 0 and leaves a well-formed listing with a [.m4a] file,
    a valid submission of a url with the same normal form is answered with
    the result of that job, under its id, and no new job is queued. *)
Theorem completed_job_is_served_at_once job b run st a first others :
  j_url job = JStr b ->
  settled run = Exited0 ->
  wellFormed (leftInDir run) = true ->
  findM4aFiles (leftInDir run) = first :: others ->
  normalize a = normalize b ->
  passesValidation a = true ->
  let st' := stateAfter (runJob job run) st in
  answer (post_download (JStr a)) st' =
    Return (FromCache (j_jobId job) (now st) (resultFor job first st)
              (statusUrlOf (j_jobId job)))
  /\ waiting (stateAfter (post_download (JStr a)) st') = waiting st'
  /\ uuidsDrawn (stateAfter (post_download (JStr a)) st') = uuidsDrawn st'.
Proof.
  intros Hb Hs Hwf Hfiles Hn Hv st'. subst st'.
  assert (Hret : answer (processor job run) st = Return (resultFor job first st)).
  { unfold answer. rewrite processor_outcome, Hs, Hfiles. reflexivity. }
  rewrite (runJob_success job run st _ Hret).
  set (st0 := stateAfter (moveToCompleted job (resultFor job first st)) (afterRun job run st)).
  destruct (onCompleted_effect job b (resultFor job first st) st0 Hb)
    as (_ & _ & _ & _ & Hdisk & Hnow & _).
  set (st1 := stateAfter (onCompleted job (resultFor job first st)) st0) in *.
  assert (Hhit : post_download (JStr a) st1 =
                 (Return (FromCache (jobId (resultFor job first st)) (now st0)
                            (resultFor job first st)
                            (statusUrlOf (jobId (resultFor job first st)))),
                  emit (RedisGet (getCacheKey b)) st1)).
  { apply (hit_after_completion job b (resultFor job first st) st0 a st1 Hb Hn Hv eq_refl).
    - rewrite Hnow. unfold CACHE_TTL_SECONDS, CACHE_TTL_DAYS. lia.
    - unfold fs_exists. rewrite Hdisk. cbn. rewrite lookup_insert_eq.
      apply (findM4aFiles_resolve _ _ Hwf). rewrite Hfiles. left. reflexivity. }
  unfold answer, stateAfter. rewrite Hhit. repeat split; reflexivity.
Qed.

(** ** Timers, in detail *)

(** What the callbacks of a list of timers leave: a result is forgotten
    and a directory deleted exactly when one of the timers says so;
    nothing else changes. *)
Lemma forEach_fire_stores ts st :
  let st' := stateAfter (forEach ts fire) st in
  (forall id, jobResults st' !! id =
                if List.existsb (forgets id) ts then None else jobResults st !! id)
  /\ (forall id, disk st' !! id =
                   if List.existsb (deletes id) ts then None else disk st !! id)
  /\ waiting st' = waiting st /\ active st' = active st
  /\ completed st' = completed st /\ failed st' = failed st
  /\ uuidsDrawn st' = uuidsDrawn st /\ uuidSource st' = uuidSource st
  /\ log st' = log st.
Proof.
  revert st. induction ts as [|t ts IH]; intros st; cbn zeta.
  - unfold stateAfter. cbn. repeat split; reflexivity.
  - unfold stateAfter. cbn [forEach]. unfold_monad.
    destruct (fire t st) as [[[]|message] st1] eqn:Hfire.
    2:{ unfold fire in Hfire. destruct (action t); discriminate Hfire. }
    specialize (IH st1). unfold stateAfter in IH. cbn zeta in IH.
    destruct IH as (Hjr & Hd & Hw & Ha & Hc & Hf & Hk & Hu & Hl).
    rewrite Hw, Ha, Hc, Hf, Hk, Hu, Hl.
    unfold fire, fs_rm, jobResults_delete, modify in Hfire.
    cbn [List.existsb]. unfold forgets at 1, deletes at 1.
    destruct (action t) as [id0 | id0]; injection Hfire as <-; cbn;
      (split; [|split; [|repeat split; reflexivity]]); intros id.
    + apply Hjr.
    + rewrite Hd. cbn. destruct (String.eqb_spec id0 id) as [-> | Hne]; cbn.
      * rewrite lookup_delete_eq. destruct (existsb (deletes id) ts); reflexivity.
      * rewrite lookup_delete_ne by exact Hne. reflexivity.
    + rewrite Hjr. cbn. destruct (String.eqb_spec id0 id) as [-> | Hne]; cbn.
      * rewrite lookup_delete_eq. destruct (existsb (forgets id) ts); reflexivity.
      * rewrite lookup_delete_ne by exact Hne. reflexivity.
    + apply Hd.
Qed.

Lemma elapse_stores ms st :
  let st' := stateAfter (elapse ms) st in
  (forall id, jobResults st' !! id =
                if List.existsb (forgets id) (dueWithin ms st) then None
                else jobResults st !! id)
  /\ (forall id, disk st' !! id =
                   if List.existsb (deletes id) (dueWithin ms st) then None
                   else disk st !! id)
  /\ waiting st' = waiting st /\ active st' = active st
  /\ completed st' = completed st /\ failed st' = failed st
  /\ uuidsDrawn st' = uuidsDrawn st /\ uuidSource st' = uuidSource st
  /\ log st' = log st.
Proof.
  cbn zeta. unfold stateAfter, elapse, dueWithin.
  match goal with |- context [forEach ?ts fire ?s0] =>
    pose proof (forEach_fire_stores ts s0) as H
  end.
  cbn zeta in H. unfold stateAfter in H. exact H.
Qed.

Lemma existsb_filter_none {A} (f g : A -> bool) (l : list A) :
  List.existsb f l = false -> List.existsb f (List.filter g l) = false.
Proof.
  induction l as [|x l IH]; [reflexivity|]. cbn.
  intros [Hx Hl]%orb_false_elim. destruct (g x); cbn; [rewrite Hx|]; auto.
Qed.

Lemma hasJob_withoutJob id jobs : hasJob id (withoutJob id jobs) = false.
Proof.
  unfold hasJob, withoutJob. induction jobs as [|j jobs IH]; [reflexivity|].
  cbn. destruct (String.eqb (j_jobId j) id) eqn:E; cbn; [exact IH|].
  rewrite E. exact IH.
Qed.

Lemma findJob_app_new {A} id (jobs : list (Job * A)) job (x : A) :
  findJob id jobs = None -> j_jobId job = id ->
  findJob id (jobs ++ [(job, x)]) = Some x.
Proof.
  unfold findJob. intros Hnone <-. induction jobs as [|[j y] jobs IH]; cbn in *.
  - rewrite String.eqb_refl. reflexivity.
  - destruct (String.eqb (j_jobId j) (j_jobId job)); [discriminate | exact (IH Hnone)].
Qed.

Lemma onCompleted_timers job result st :
  timers (stateAfter (onCompleted job result) st) =
    (timers st
     ++ match j_url job with
        | JStr _ => [mkTimer (now st + CACHE_TTL_SECONDS * 1000) (DeleteDownloads (j_jobId job))]
        | _ => []
        end
     ++ [mkTimer (now st + 3600000) (ForgetResult (j_jobId job))])%list.
Proof.
  unfold stateAfter, onCompleted. destruct (j_url job); run; try reflexivity.
  rewrite <- app_assoc. reflexivity.
Qed.

Lemma onCompleted_queue job result st :
  let st' := stateAfter (onCompleted job result) st in
  waiting st' = waiting st /\ active st' = active st
  /\ completed st' = completed st /\ failed st' = failed st /\ now st' = now st.
Proof.
  cbn zeta. unfold stateAfter, onCompleted. destruct (j_url job); run; repeat split.
Qed.

(** ** The status of a job, while and after the result map holds it *)

(** X4. After a job completes, a status query answers from the result map
    with the result of the job for one hour; from then on, the result map
    has forgotten the job and the query answers from the queue: state
    [completed] with the same result. The job's id must be its own (not
    among the waiting jobs, the completed jobs or the pending timers that
    forget a result). *)
Theorem status_survives_the_result_map job run st result ms :
  answer (processor job run) st = Return result ->
  hasJob (j_jobId job) (waiting st) = false ->
  findJob (j_jobId job) (completed st) = None ->
  List.existsb (forgets (j_jobId job)) (timers st) = false ->
  0 <= ms ->
  let st' := stateAfter (elapse ms) (stateAfter (runJob job run) st) in
  (ms < 3600000 ->
   answer (get_status (j_jobId job)) st' = Return (Tracked (OutcomeCompleted result)))
  /\ (3600000 <= ms ->
      answer (get_status (j_jobId job)) st' =
        Return (InQueue "completed" (Some result) None)).
Proof.
  intros Hret Hw Hc Ht Hms st'. subst st'.
  rewrite (runJob_success job run st result Hret).
  set (st0 := stateAfter (moveToCompleted job result) (afterRun job run st)).
  set (st1 := stateAfter (onCompleted job result) st0).
  destruct (onCompleted_queue job result st0) as (Hw1 & Ha1 & Hc1 & _ & Hn1).
  fold st1 in Hw1, Ha1, Hc1, Hn1.
  pose proof (onCompleted_timers job result st0) as Ht1. fold st1 in Ht1.
  pose proof (onCompleted_jobResults job result st0) as Hjr1. fold st1 in Hjr1.
  destruct (elapse_stores ms st1) as (Hjr & _ & Hw2 & Ha2 & Hc2 & _).
  specialize (Hjr (j_jobId job)).
  change (timers st0) with (timers st) in Ht1.
  set (mid := match j_url job with
              | JStr _ => [mkTimer (now st0 + CACHE_TTL_SECONDS * 1000)
                             (DeleteDownloads (j_jobId job))]
              | _ => []
              end) in Ht1.
  assert (Hmid : List.existsb (forgets (j_jobId job)) mid = false)
    by (subst mid; destruct (j_url job); reflexivity).
  assert (Hdue : List.existsb (forgets (j_jobId job)) (dueWithin ms st1)
                 = (3600000 <=? ms)).
  { unfold dueWithin. rewrite Ht1, Hn1, !List.filter_app, !List.existsb_app.
    rewrite (existsb_filter_none _ _ _ Ht), (existsb_filter_none _ _ _ Hmid).
    cbn. destruct (Z.leb_spec (now st + 3600000) (now st + ms)) as [H1 | H1];
      destruct (Z.leb_spec 3600000 ms) as [H2 | H2]; try lia; cbn.
    - unfold forgets. cbn. rewrite String.eqb_refl. reflexivity.
    - reflexivity. }
  rewrite Hdue, Hjr1, lookup_insert_eq in Hjr.
  unfold answer, get_status, tryCatch, gets. cbn [fst].
  rewrite Hjr, Hw2, Ha2, Hc2, Hw1, Ha1, Hc1.
  split; intros Hcase.
  - destruct (Z.leb_spec 3600000 ms); [lia | reflexivity].
  - destruct (Z.leb_spec 3600000 ms); [|lia].
    change (waiting st0) with (waiting st).
    change (active st0) with (withoutJob (j_jobId job) (active st)).
    change (completed st0) with (completed st ++ [(job, result)])%list.
    rewrite Hw, hasJob_withoutJob, (findJob_app_new _ _ job result Hc eq_refl).
    reflexivity.
Qed.

(** ** A cached url, before and after its time to live *)

(** X5. A cached url through time. Let a job complete, its file in place
    and no older timer pending against its directory. Until the time to
    live has passed, a valid submission of the url is served the result of
    that job. Once it has passed, the entry is no longer found and the
    directory has been deleted: the submission is a miss and queues a job
    under the next id. *)
Theorem cached_url_before_and_after_ttl job b result st a ms :
  j_url job = JStr b ->
  jobId result = j_jobId job ->
  normalize a = normalize b ->
  passesValidation a = true ->
  fs_exists (jobId result) (fileName result) st = true ->
  List.existsb (deletes (j_jobId job)) (timers st) = false ->
  let st' := stateAfter (elapse ms) (stateAfter (onCompleted job result) st) in
  (0 <= ms < CACHE_TTL_SECONDS * 1000 ->
   answer (post_download (JStr a)) st' =
     Return (FromCache (jobId result) (now st) result (statusUrlOf (jobId result))))
  /\ (CACHE_TTL_SECONDS * 1000 < ms ->
      disk st' !! j_jobId job = None
      /\ answer (post_download (JStr a)) st' =
           Return (Queued (uuidSource st (uuidsDrawn st))
                          (statusUrlOf (uuidSource st (uuidsDrawn st))))).
Proof.
  intros Hb Hid Hn Hv Hfile Hold st'. subst st'.
  set (st1 := stateAfter (onCompleted job result) st).
  destruct (onCompleted_effect job b result st Hb)
    as (_ & _ & _ & _ & Hd1 & Hn1 & Hk1 & Hu1).
  fold st1 in Hd1, Hn1, Hk1, Hu1.
  pose proof (onCompleted_timers job result st) as Ht1. fold st1 in Ht1.
  rewrite Hb in Ht1.
  destruct (elapse_effect ms st1) as (Hn2 & Hr2 & _).
  destruct (elapse_stores ms st1) as (_ & Hd2 & _ & _ & _ & _ & Hk2 & Hu2 & _).
  destruct (entry_and_files_expire_together job b result st ms Hb) as [_ Hafter].
  fold st1 in Hafter.
  split; intros Hms.
  - unfold answer.
    rewrite (hit_after_completion job b result st a (stateAfter (elapse ms) st1) Hb Hn Hv).
    + reflexivity.
    + rewrite Hr2. reflexivity.
    + rewrite Hn2, Hn1. lia.
    + unfold fs_exists in Hfile |- *. rewrite Hd2, Hid.
      replace (List.existsb (deletes (j_jobId job)) (dueWithin ms st1)) with false.
      * rewrite Hd1, <- Hid. exact Hfile.
      * symmetry. unfold dueWithin. rewrite Ht1, Hn1, !List.filter_app, !List.existsb_app.
        rewrite (existsb_filter_none _ _ _ Hold). cbn.
        destruct (Z.leb_spec (now st + CACHE_TTL_SECONDS * 1000) (now st + ms)) as [H1 | H1];
          [lia|]. cbn.
        destruct (now st + 3600000 <=? now st + ms); reflexivity.
  - destruct (Hafter Hms) as [Hgone Hdir]. split; [exact Hdir|].
    unfold answer. rewrite <- (normalize_getCacheKey a b Hn) in Hgone.
    rewrite (post_download_miss a _ Hv Hgone). cbn [fst].
    rewrite Hk2, Hu2, Hk1, Hu1. reflexivity.
Qed.

(** ** What a failed job leaves behind *)

(** X6. A failed job's directory stays: the run leaves on disk whatever
    the producer left there, arms no timer against the directory, and no
    later firing of timers removes it, unless an older timer for the same
    id was pending. After an hour the status query answers from the queue:
    state [failed] with the error message. *)
Theorem failed_job_leaves_its_directory job run st message ms :
  answer (processor job run) st = Throw message ->
  List.existsb (deletes (j_jobId job)) (timers st) = false ->
  hasJob (j_jobId job) (waiting st) = false ->
  findJob (j_jobId job) (completed st) = None ->
  findJob (j_jobId job) (failed st) = None ->
  0 <= ms ->
  let st1 := stateAfter (runJob job run) st in
  let st' := stateAfter (elapse ms) st1 in
  disk st1 !! j_jobId job = Some (leftInDir run)
  /\ timers st1 = (timers st ++ [mkTimer (now st + 3600000) (ForgetResult (j_jobId job))])%list
  /\ disk st' !! j_jobId job = Some (leftInDir run)
  /\ (3600000 <= ms ->
      answer (get_status (j_jobId job)) st' =
        Return (InQueue "failed" None (Some message))).
Proof.
  intros Hthrow Hold Hw Hc Hf Hms st1 st'. subst st' st1.
  unfold answer in Hthrow. rewrite processor_outcome in Hthrow. cbn [fst] in Hthrow.
  assert (Hrun : stateAfter (runJob job run) st =
                 stateAfter (onFailed job message)
                   (stateAfter (moveToFailed job message) (afterRun job run st))).
  { unfold stateAfter, runJob. rewrite processor_outcome, Hthrow. reflexivity. }
  rewrite Hrun.
  set (st1 := stateAfter (onFailed job message)
                (stateAfter (moveToFailed job message) (afterRun job run st))).
  assert (Hd1 : disk st1 = <[j_jobId job := leftInDir run]> (disk st)) by reflexivity.
  assert (Ht1 : timers st1 =
                (timers st ++ [mkTimer (now st + 3600000) (ForgetResult (j_jobId job))])%list)
    by reflexivity.
  assert (Hjr1 : jobResults st1 = <[j_jobId job := OutcomeFailed message]> (jobResults st))
    by reflexivity.
  destruct (elapse_stores ms st1) as (Hjr & Hd2 & Hw2 & Ha2 & Hc2 & Hf2 & _).
  assert (Hnodel : List.existsb (deletes (j_jobId job)) (dueWithin ms st1) = false).
  { unfold dueWithin. rewrite Ht1, List.filter_app, List.existsb_app.
    rewrite (existsb_filter_none _ _ _ Hold). cbn.
    destruct (_ <=? _); reflexivity. }
  split; [rewrite Hd1; apply lookup_insert_eq|].
  split; [exact Ht1|].
  split; [rewrite Hd2, Hnodel, Hd1; apply lookup_insert_eq|].
  intros Hhour.
  assert (Hforget : List.existsb (forgets (j_jobId job)) (dueWithin ms st1) = true).
  { unfold dueWithin. rewrite Ht1, List.filter_app, List.existsb_app.
    apply orb_true_iff. right. change (now st1) with (now st). cbn.
    destruct (Z.leb_spec (now st + 3600000) (now st + ms)); [|lia].
    cbn. unfold forgets. cbn. rewrite String.eqb_refl. reflexivity. }
  unfold answer, get_status, tryCatch, gets. cbn [fst].
  rewrite Hjr, Hforget, Hw2, Ha2, Hc2, Hf2.
  change (waiting st1) with (waiting st).
  change (active st1) with (withoutJob (j_jobId job) (active st)).
  change (completed st1) with (completed st).
  change (failed st1) with (failed st ++ [(job, message)])%list.
  rewrite Hw, hasJob_withoutJob, Hc, (findJob_app_new _ _ job message Hf eq_refl).
  reflexivity.
Qed.

(** ** A second completion for the same key *)

(** X7. When a second job for the same normalised url completes, its
    record replaces the first under the one key, and a submission is
    served the second result. The timer against the first job's directory
    stays armed beside the new one. *)
Theorem second_completion_replaces_the_record job1 job2 b1 b2 result1 result2 st a :
  j_url job1 = JStr b1 ->
  j_url job2 = JStr b2 ->
  normalize b1 = normalize b2 ->
  normalize a = normalize b2 ->
  passesValidation a = true ->
  let st' := stateAfter (onCompleted job2 result2) (stateAfter (onCompleted job1 result1) st) in
  fs_exists (jobId result2) (fileName result2) st' = true ->
  redis st' !! getCacheKey b1 =
    Some (cacheRecordOf result2 (now st), now st + CACHE_TTL_SECONDS * 1000)
  /\ answer (post_download (JStr a)) st' =
       Return (FromCache (jobId result2) (now st) result2 (statusUrlOf (jobId result2)))
  /\ In (mkTimer (now st + CACHE_TTL_SECONDS * 1000) (DeleteDownloads (j_jobId job1)))
        (timers st')
  /\ In (mkTimer (now st + CACHE_TTL_SECONDS * 1000) (DeleteDownloads (j_jobId job2)))
        (timers st').
Proof.
  intros Hb1 Hb2 Hn12 Hn Hv st' Hfile. subst st'.
  set (st1 := stateAfter (onCompleted job1 result1) st) in *.
  destruct (onCompleted_effect job1 b1 result1 st Hb1) as (_ & Ht1 & _ & _ & _ & Hn1 & _).
  fold st1 in Ht1, Hn1.
  destruct (onCompleted_effect job2 b2 result2 st1 Hb2) as (Hr2 & Ht2 & _ & _ & _ & Hn2 & _).
  split; [|split; [|split]].
  - rewrite Hr2, (normalize_getCacheKey b1 b2 Hn12), lookup_insert_eq, Hn1. reflexivity.
  - unfold answer.
    rewrite (hit_after_completion job2 b2 result2 st1 a _ Hb2 Hn Hv eq_refl).
    + rewrite Hn1. reflexivity.
    + rewrite Hn2. unfold CACHE_TTL_SECONDS, CACHE_TTL_DAYS. lia.
    + exact Hfile.
  - rewrite Ht2, Ht1. apply List.in_or_app. left. apply List.in_or_app. right.
    left. reflexivity.
  - rewrite Ht2, Hn1. apply List.in_or_app. right. left. reflexivity.
Qed.

(** ** Clearing the queue, seen through the other routes *)

(** X8. The reply to a clearing carries the statistics a stats query would
    have given just before, and the number of job results forgotten. Just
    after, a stats query gives zero everywhere and a status query answers
    404 for every id - also for the id of a job whose result the cache
    still serves. *)
Theorem clearing_reports_then_zeroes st :
  (exists stats,
      answer get_queue_stats st = Return (Ok stats)
      /\ answer post_queue_clear st = Return (Ok (mkCleared stats (size (jobResults st))))
      /\ s_total stats = (s_waiting stats + s_active stats + s_completed stats + s_failed stats)%nat
      /\ s_waiting stats = length (waiting st) /\ s_active stats = length (active st)
      /\ s_completed stats = length (completed st) /\ s_failed stats = length (failed st))
  /\ answer get_queue_stats (stateAfter post_queue_clear st) =
       Return (Ok (mkQueueStats 0 0 0 0 0))
  /\ (forall id,
        answer (get_status id) (stateAfter post_queue_clear st) =
          Return (StatusError 404 "Job not found")).
Proof.
  unfold answer, stateAfter. rewrite post_queue_clear_effect. cbn [fst snd].
  split; [|split].
  - eexists. split; [reflexivity|]. repeat split; reflexivity.
  - reflexivity.
  - intros id. unfold get_status, tryCatch, gets. cbn. rewrite lookup_empty. reflexivity.
Qed.

(** ** A [url] that is not a string *)

(** X9. A [url] that is not a string never reaches the cache or the queue:
    the state is left as it was. A falsy value gets status 400 and
    [URL is required]. A truthy value without [includes] (a number, [true],
    an object) gets status 500 from the [catch] block. An array is searched
    for the element [music.apple.com]: without it the answer is status 400,
    with it the check passes and [getCacheKey] throws, status 500. *)
Theorem non_string_url_is_turned_away url st :
  (forall s, url <> JStr s) ->
  stateAfter (post_download url) st = st
  /\ exists status message,
       answer (post_download url) st = Return (Rejected status message)
       /\ (truthy url = false -> status = 400 /\ message = "URL is required")
       /\ (truthy url = true -> (forall elems, url <> JArr elems) ->
           status = 500 /\ message = "url.includes is not a function")
       /\ (forall elems, url = JArr elems ->
           if List.existsb (isStr "music.apple.com") elems
           then status = 500 /\ message = "url.trim is not a function"
           else status = 400 /\ message = "Invalid Apple Music URL").
Proof.
  intros Hns.
  destruct url as [| |b|n|s|elems|fields]; unfold stateAfter, answer, post_download; run.
  - split; [reflexivity|]. do 2 eexists. split; [reflexivity|].
    repeat split; try discriminate.
  - split; [reflexivity|]. do 2 eexists. split; [reflexivity|].
    repeat split; try discriminate.
  - destruct b; cbn; (split; [reflexivity|]); do 2 eexists; (split; [reflexivity|]);
      repeat split; try discriminate.
  - destruct (n =? 0); cbn; (split; [reflexivity|]); do 2 eexists; (split; [reflexivity|]);
      repeat split; try discriminate.
  - destruct (Hns s eq_refl).
  - destruct (List.existsb (isStr "music.apple.com") elems) eqn:E; cbn;
      (split; [reflexivity|]); do 2 eexists; (split; [reflexivity|]);
      (split; [discriminate|]);
      (split; [intros _ H; destruct (H elems eq_refl)|]);
      intros elems' [= <-]; rewrite E; split; reflexivity.
  - split; [reflexivity|]. do 2 eexists. split; [reflexivity|].
    repeat split; try discriminate.
Qed.

(** ** Submitting twice *)

(** X10. Submissions are not deduplicated: as long as the cache has no
    entry for the url, every valid submission queues a job of its own,
    whatever the queue already holds. Two submissions in a row leave two
    jobs for the url, under the two ids drawn, and the cache as it was. *)
Theorem repeated_submission_queues_again url st :
  passesValidation url = true ->
  redis_lookup (getCacheKey url) st = None ->
  let id0 := uuidSource st (uuidsDrawn st) in
  let id1 := uuidSource st (S (uuidsDrawn st)) in
  let st1 := stateAfter (post_download (JStr url)) st in
  let st2 := stateAfter (post_download (JStr url)) st1 in
  answer (post_download (JStr url)) st = Return (Queued id0 (statusUrlOf id0))
  /\ answer (post_download (JStr url)) st1 = Return (Queued id1 (statusUrlOf id1))
  /\ waiting st2 = (waiting st ++ [mkJob (JStr url) id0; mkJob (JStr url) id1])%list
  /\ active st2 = active st
  /\ redis st2 = redis st.
Proof.
  intros Hv Hmiss id0 id1 st1 st2. subst id0 id1 st2 st1.
  unfold answer, stateAfter.
  rewrite (post_download_miss url st Hv Hmiss). cbn [fst snd].
  assert (Hmiss1 : redis_lookup (getCacheKey url)
                     (enqueued url (emit (RedisGet (getCacheKey url)) st)) = None)
    by exact Hmiss.
  rewrite (post_download_miss url _ Hv Hmiss1). cbn.
  rewrite <- app_assoc. repeat split; reflexivity.
Qed.

(** ** A hit *)

(** X11. Serving from the cache changes nothing but the log: no job is
    queued, no id is drawn, and the entry keeps its expiry instant (a hit
    does not prolong it). The same submission again gets the same
    answer. *)
Theorem cache_hit_changes_nothing url st c :
  passesValidation url = true ->
  redis_lookup (getCacheKey url) st = Some c ->
  fs_exists (c_jobId c) (c_fileName c) st = true ->
  let st1 := stateAfter (post_download (JStr url)) st in
  st1 = withLog (log st ++ [RedisGet (getCacheKey url)]) st
  /\ redis st1 = redis st /\ waiting st1 = waiting st /\ uuidsDrawn st1 = uuidsDrawn st
  /\ timers st1 = timers st
  /\ answer (post_download (JStr url)) st1 = answer (post_download (JStr url)) st.
Proof.
  intros Hv Hl Hf st1. subst st1. unfold stateAfter.
  rewrite (post_download_hit url st c Hv Hl Hf). cbn [snd].
  repeat split. apply post_download_answer_ext; reflexivity.
Qed.

(** ** The sweep at startup *)

(** A directory is too old when it was last modified more than three days,
    259 200 000 ms, before the sweep. *)
Lemma tooOld_iff nowMs mtime :
  tooOld nowMs mtime = true <-> (mtime + inject_Z 259200000 < inject_Z nowMs)%Q.
Proof.
  unfold tooOld, ageDays. rewrite negb_true_iff.
  change (inject_Z (1000 * 60 * 60 * 24)) with (inject_Z 86400000).
  change (inject_Z CACHE_TTL_DAYS) with (inject_Z 3).
  split.
  - intros H.
    destruct (Qlt_le_dec (mtime + inject_Z 259200000) (inject_Z nowMs)) as [Hlt | Hle];
      [exact Hlt|].
    exfalso. apply not_true_iff_false in H. apply H. apply Qle_bool_iff.
    apply Qle_shift_div_r; [reflexivity|].
    change (inject_Z 3 * inject_Z 86400000)%Q with (inject_Z 259200000). lra.
  - intros Hlt. apply not_true_iff_false. intros H. apply Qle_bool_iff in H.
    apply (Qmult_le_r _ _ (inject_Z 86400000)) in H; [|reflexivity].
    assert (E : ((inject_Z nowMs - mtime) / inject_Z 86400000 * inject_Z 86400000
                 == inject_Z nowMs - mtime)%Q) by field.
    rewrite E in H.
    change (inject_Z 3 * inject_Z 86400000)%Q with (inject_Z 259200000) in H. lra.
Qed.

(** Removing some of the listed directories: what is left. *)
Lemma sweep_effect (old : string -> bool) names st :
  exists d',
    forEach names (fun name => if old name then fs_rm name else mret tt) st =
      (Return tt, set_disk (fun _ => d') st)
    /\ forall id, d' !! id =
                    if List.existsb (String.eqb id) names && old id then None
                    else disk st !! id.
Proof.
  set (body := fun name : string => if old name then fs_rm name else mret tt).
  revert st. induction names as [|name names IH]; intros st.
  - exists (disk st). split; [destruct st; reflexivity | reflexivity].
  - change (forEach (name :: names) body st)
      with (match body name st with
            | (Return _, st') => forEach names body st'
            | (Throw e, st') => (Throw e, st')
            end).
    unfold body at 1. destruct (old name) eqn:Hold.
    + change (fs_rm name st) with (Return tt, set_disk (delete name) st).
      destruct (IH (set_disk (delete name) st)) as (d' & -> & Hd').
      exists d'. split; [reflexivity|]. intros id. rewrite Hd'. cbn.
      destruct (String.eqb_spec id name) as [-> | Hne]; cbn.
      * rewrite Hold, lookup_delete_eq.
        destruct (List.existsb (String.eqb name) names); reflexivity.
      * rewrite lookup_delete_ne by congruence. reflexivity.
    + change ((mret tt : M unit) st) with (Return tt, st).
      destruct (IH st) as (d' & -> & Hd').
      exists d'. split; [reflexivity|]. intros id. rewrite Hd'. cbn.
      destruct (String.eqb_spec id name) as [-> | Hne]; cbn; [|reflexivity].
      rewrite Hold, andb_false_r. reflexivity.
Qed.

Lemma listed_directory (disk0 : gmap string (list entry)) id dir :
  disk0 !! id = Some dir ->
  List.existsb (String.eqb id) (List.map fst (map_to_list disk0)) = true.
Proof.
  intros H. apply List.existsb_exists. exists id. split; [|apply String.eqb_refl].
  apply List.in_map_iff. exists (id, dir). split; [reflexivity|].
  apply list_elem_of_In, elem_of_map_to_list, H.
Qed.

(** X12. The sweep at startup deletes exactly the directories under
    [downloads/] last modified more than three days (259 200 000 ms)
    before it runs: a directory exactly three days old, or younger, stays.
    It never throws, and it touches neither the cache nor the timers, so a
    record whose directory it deleted stays in the cache, stale. *)
Theorem startup_sweep_deletes_by_age mtimeMs st :
  let st' := stateAfter (cleanupOldCaches mtimeMs) st in
  answer (cleanupOldCaches mtimeMs) st = Return tt
  /\ (forall id,
        (mtimeMs id + inject_Z 259200000 < inject_Z (now st))%Q ->
        disk st' !! id = None)
  /\ (forall id,
        (inject_Z (now st) <= mtimeMs id + inject_Z 259200000)%Q ->
        disk st' !! id = disk st !! id)
  /\ st' = set_disk (fun _ => disk st') st.
Proof.
  cbn zeta. unfold answer, stateAfter.
  change (cleanupOldCaches mtimeMs st)
    with (match forEach (List.map fst (map_to_list (disk st)))
                  (fun name => if tooOld (now st) (mtimeMs name)
                               then fs_rm name else mret tt) st with
          | (Return a, st') => (Return a, st')
          | (Throw _, st') => (Return tt, st')
          end).
  destruct (sweep_effect (fun name => tooOld (now st) (mtimeMs name))
              (List.map fst (map_to_list (disk st))) st) as (d' & -> & Hd').
  cbn [fst snd disk set_disk].
  split; [reflexivity|]. split; [|split; [|reflexivity]].
  - intros id Hold. apply tooOld_iff in Hold. rewrite Hd', Hold, andb_true_r.
    destruct (disk st !! id) as [dir|] eqn:E.
    + rewrite (listed_directory _ _ _ E). reflexivity.
    + destruct (List.existsb _ _); reflexivity.
  - intros id Hyoung. rewrite Hd'.
    destruct (tooOld (now st) (mtimeMs id)) eqn:E.
    + apply tooOld_iff in E. lra.
    + rewrite andb_false_r. reflexivity.
Qed.

(** ** What validation lets through *)

Lemma startsWith_iff s p :
  startsWith s p = true <-> exists post, s = p ++ post.
Proof.
  revert s. induction p as [|a p IH]; intros s.
  - split; [exists s; reflexivity | destruct s; reflexivity].
  - destruct s as [|b s].
    + split; [discriminate | intros [post H]; discriminate H].
    + cbn [startsWith]. destruct (ascii_dec a b) as [-> | Hne].
      * rewrite IH. split; intros [post H]; exists post.
        -- rewrite H. reflexivity.
        -- injection H as H. exact H.
      * split; [discriminate | intros [post H]; injection H as H _; congruence].
Qed.

Lemma includes_iff s p :
  includes s p = true <-> exists pre post, s = pre ++ p ++ post.
Proof.
  split.
  - induction s as [|c r IH].
    + cbn [includes]. rewrite orb_false_r. intros [post H]%startsWith_iff.
      exists "", post. exact H.
    + cbn [includes]. intros [[post H]%startsWith_iff | H]%orb_prop.
      * exists "", post. exact H.
      * destruct (IH H) as (pre & post & ->). exists (String c pre), post. reflexivity.
  - intros (pre & post & ->). induction pre as [|c pre IH].
    + assert (H : startsWith (p ++ post) p = true) by (apply startsWith_iff; eauto).
      change ("" ++ p ++ post) with (p ++ post).
      destruct (p ++ post); cbn [includes]; rewrite H; reflexivity.
    + change (String c pre ++ p ++ post) with (String c (pre ++ p ++ post)).
      cbn [includes]. rewrite IH. apply orb_true_r.
Qed.

(** X13. The validation of [POST /api/download] lets a string through
    exactly when it contains [music.apple.com], in lower case, with
    anything before and after it; every other string gets a rejection, and
    the strings let through never do. *)
Theorem validation_is_containment s st :
  (passesValidation s = true <-> exists pre post, s = pre ++ "music.apple.com" ++ post)
  /\ (passesValidation s = false <->
      exists status message,
        answer (post_download (JStr s)) st = Return (Rejected status message)).
Proof.
  split.
  - unfold passesValidation. rewrite andb_true_iff, includes_iff. split.
    + intros [_ H]. exact H.
    + intros (pre & post & ->). split; [|eauto].
      destruct pre; reflexivity.
  - split.
    + intros Hv. do 2 eexists. unfold answer.
      rewrite (post_download_invalid s st Hv). reflexivity.
    + intros (status & message & Hans). unfold answer in Hans.
      destruct (passesValidation s) eqn:Hv; [exfalso | reflexivity].
      destruct (redis_lookup (getCacheKey s) st) as [c|] eqn:Hl.
      2:{ rewrite (post_download_miss s st Hv Hl) in Hans. discriminate. }
      destruct (fs_exists (c_jobId c) (c_fileName c) st) eqn:Hf.
      * rewrite (post_download_hit s st c Hv Hl Hf) in Hans. discriminate.
      * rewrite (post_download_stale s st c Hv Hl Hf) in Hans. discriminate.
Qed.

(** ** What the queue holds *)

Lemma forallb_app_intro {A} (f : A -> bool) l1 l2 :
  List.forallb f l1 = true -> List.forallb f l2 = true ->
  List.forallb f (l1 ++ l2) = true.
Proof. intros H1 H2. rewrite List.forallb_app, H1, H2. reflexivity. Qed.

Lemma forallb_withoutJob id jobs :
  List.forallb validJob jobs = true ->
  List.forallb validJob (withoutJob id jobs) = true.
Proof.
  unfold withoutJob. induction jobs as [|j jobs IH]; [reflexivity|]. cbn.
  intros [Hj Hjobs]%andb_prop. destruct (negb _); cbn; [rewrite Hj|]; auto.
Qed.

Lemma runJob_queue job run st :
  waiting (stateAfter (runJob job run) st) = waiting st
  /\ active (stateAfter (runJob job run) st) = withoutJob (j_jobId job) (active st).
Proof.
  unfold stateAfter, runJob. rewrite processor_outcome.
  destruct (settled run).
  - destruct (findM4aFiles (leftInDir run)).
    + split; reflexivity.
    + match goal with |- context [onCompleted ?j ?r] =>
        destruct (onCompleted_queue j r
                    (stateAfter (moveToCompleted j r) (afterRun job run st)))
          as (Hw & Ha & _)
      end.
      unfold stateAfter in Hw, Ha. unfold_monad. cbn in Hw, Ha |- *.
      rewrite Hw, Ha. split; reflexivity.
  - split; reflexivity.
Qed.

Lemma perform_queueIsValid op st :
  queueIsValid st = true -> queueIsValid (perform op st) = true.
Proof.
  unfold queueIsValid. intros [Hw Ha]%andb_prop.
  destruct op as [url | id | | | | job run | ms | id]; cbn [perform].
  - destruct (post_download_queues_validated_strings url st) as [E | (s & -> & Hv & E)].
    + assert (Ea : active (stateAfter (post_download url) st) = active st).
      { unfold stateAfter.
        assert (Hstr : (exists s, url = JStr s) \/ forall s, url <> JStr s).
        { destruct url; try (right; intros s; discriminate). left; eauto. }
        destruct Hstr as [[s ->] | Hns].
        2:{ destruct (post_download_not_a_string url st Hns) as (? & ? & ->). reflexivity. }
        destruct (passesValidation s) eqn:Hv.
        2:{ rewrite (post_download_invalid s st Hv). reflexivity. }
        destruct (redis_lookup (getCacheKey s) st) as [c|] eqn:Hl.
        2:{ rewrite (post_download_miss s st Hv Hl). reflexivity. }
        destruct (fs_exists (c_jobId c) (c_fileName c) st) eqn:Hf.
        - rewrite (post_download_hit s st c Hv Hl Hf). reflexivity.
        - rewrite (post_download_stale s st c Hv Hl Hf). reflexivity. }
      rewrite E, Ea, Hw, Ha. reflexivity.
    + assert (Ea : active (stateAfter (post_download (JStr s)) st) = active st).
      { unfold stateAfter.
        destruct (redis_lookup (getCacheKey s) st) as [c|] eqn:Hl.
        2:{ rewrite (post_download_miss s st Hv Hl). reflexivity. }
        destruct (fs_exists (c_jobId c) (c_fileName c) st) eqn:Hf.
        - rewrite (post_download_hit s st c Hv Hl Hf). reflexivity.
        - rewrite (post_download_stale s st c Hv Hl Hf). reflexivity. }
      rewrite E, Ea, Ha, andb_true_r.
      apply forallb_app_intro; [exact Hw|]. cbn. unfold validJob. cbn.
      rewrite Hv. reflexivity.
  - change (stateAfter (get_status id) st) with st. rewrite Hw, Ha. reflexivity.
  - change (stateAfter get_queue_stats st) with st. rewrite Hw, Ha. reflexivity.
  - unfold stateAfter. rewrite post_queue_clear_effect. reflexivity.
  - unfold stateAfter, takeNext. destruct (waiting st) as [|j rest] eqn:E.
    + cbn [snd]. rewrite E, Ha. reflexivity.
    + cbn [snd waiting active set_queue]. cbn [List.forallb] in Hw.
      apply andb_prop in Hw as [Hj Hrest].
      rewrite Hrest. apply forallb_app_intro; [exact Ha|].
      cbn [List.forallb]. rewrite Hj. reflexivity.
  - destruct (runJob_queue job run st) as [-> ->].
    rewrite Hw, (forallb_withoutJob _ _ Ha). reflexivity.
  - destruct (elapse_stores ms st) as (_ & _ & -> & -> & _).
    rewrite Hw, Ha. reflexivity.
  - change (waiting (deletedExternally id st)) with (waiting st).
    change (active (deletedExternally id st)) with (active st).
    rewrite Hw, Ha. reflexivity.
Qed.

(** X14. Over any history of requests, worker steps, timers and deleted
    directories, every waiting or active job carries a url that is a
    string and passed validation, provided that was so at the start (as
    it is when the queue is empty). The [completed] handler is thus never
    given a url it cannot make a key of. *)
Theorem queue_holds_validated_urls ops st :
  queueIsValid st = true ->
  queueIsValid (performAll ops st) = true
  /\ (forall job, In job (waiting (performAll ops st) ++ active (performAll ops st)) ->
      exists s, j_url job = JStr s /\ passesValidation s = true
                /\ getCacheKey_js (j_url job) = mret (getCacheKey s)).
Proof.
  intros Hst.
  assert (Hall : queueIsValid (performAll ops st) = true).
  { revert st Hst. induction ops as [|op ops IH]; intros st Hst; [exact Hst|].
    cbn [performAll List.fold_left]. apply IH, perform_queueIsValid, Hst. }
  split; [exact Hall|].
  intros job Hin. unfold queueIsValid in Hall.
  rewrite <- List.forallb_app in Hall. rewrite List.forallb_forall in Hall.
  specialize (Hall job Hin). unfold validJob in Hall.
  destruct (j_url job) as [| | | |s| |]; try discriminate.
  exists s. repeat split. exact Hall.
Qed.

(** ** Keys *)

(** X15. Two urls have the same cache key exactly when they have the same
    normal form: urls that differ after trimming and case folding never
    share an entry. Every key starts with [cache:url:], and the record a
    completion writes sits under the key of the job's url. *)
Theorem keys_separate_normal_forms :
  (forall a b, getCacheKey a = getCacheKey b <-> normalize a = normalize b)
  /\ (forall a, startsWith (getCacheKey a) "cache:url:" = true)
  /\ (forall job b result st key,
        j_url job = JStr b ->
        redis (stateAfter (onCompleted job result) st) !! key <> redis st !! key ->
        key = getCacheKey b).
Proof.
  split; [|split].
  - intros a b. split; [|apply normalize_getCacheKey].
    unfold getCacheKey. intros H. exact (String.app_inj _ _ _ H).
  - intros a. apply startsWith_iff. exists (normalize a). reflexivity.
  - intros job b result st key Hb Hchanged.
    destruct (onCompleted_effect job b result st Hb) as (Hr & _).
    destruct (decide (key = getCacheKey b)) as [-> | Hne]; [reflexivity|].
    exfalso. apply Hchanged. rewrite Hr. apply lookup_insert_ne. congruence.
Qed.

(** ** The further properties at the sample run *)

Lemma found_paths_end_in_m4a_witness :
  endsWith (fileName Sample.result) ".m4a" = true
  /\ endsWith (fileUrl Sample.result) ".m4a" = true
  /\ jobId Sample.result = j_jobId Sample.job /\ success Sample.result = true.
Proof.
  apply (proj2 found_paths_end_in_m4a Sample.job Sample.goodRun Scenario.taken Sample.result).
  vm_compute. reflexivity.
Defined.

Lemma found_paths_exist_witness :
  List.Forall (fun p => cacheFilesExist (Sample.uuids 0) p Sample.cached
                        = (Return true, Sample.cached))
    (findM4aFiles Scenario.listing).
Proof.
  apply (found_paths_exist Sample.cached (Sample.uuids 0) Scenario.listing);
    vm_compute; reflexivity.
Defined.

Lemma completed_job_is_served_at_once_witness :
  let st' := stateAfter (runJob Sample.job Sample.goodRun) Scenario.taken in
  answer (post_download (JStr Sample.shouted)) st' =
    Return (FromCache (j_jobId Sample.job) (now Scenario.taken)
              (resultFor Sample.job "Artist/Album/01 Song.m4a" Scenario.taken)
              (statusUrlOf (j_jobId Sample.job)))
  /\ waiting (stateAfter (post_download (JStr Sample.shouted)) st') = waiting st'
  /\ uuidsDrawn (stateAfter (post_download (JStr Sample.shouted)) st') = uuidsDrawn st'.
Proof.
  apply (completed_job_is_served_at_once Sample.job Sample.url Sample.goodRun
           Scenario.taken Sample.shouted
           "Artist/Album/01 Song.m4a" ["Artist/Album/02 Other.m4a"]);
    vm_compute; reflexivity.
Defined.

Lemma status_survives_the_result_map_witness :
  let st' := stateAfter (elapse 7200000)
               (stateAfter (runJob Sample.job Sample.goodRun) Scenario.taken) in
  (7200000 < 3600000 ->
   answer (get_status (j_jobId Sample.job)) st'
   = Return (Tracked (OutcomeCompleted Sample.result)))
  /\ (3600000 <= 7200000 ->
      answer (get_status (j_jobId Sample.job)) st' =
        Return (InQueue "completed" (Some Sample.result) None)).
Proof.
  apply (status_survives_the_result_map Sample.job Sample.goodRun Scenario.taken
           Sample.result 7200000).
  - vm_compute. reflexivity.
  - vm_compute. reflexivity.
  - vm_compute. reflexivity.
  - vm_compute. reflexivity.
  - lia.
Defined.

Lemma cached_url_before_and_after_ttl_witness :
  let st' := stateAfter (elapse 1000)
               (stateAfter (onCompleted Sample.job Sample.result) Scenario.ran) in
  (0 <= 1000 < CACHE_TTL_SECONDS * 1000 ->
   answer (post_download (JStr Sample.shouted)) st' =
     Return (FromCache (jobId Sample.result) (now Scenario.ran) Sample.result
               (statusUrlOf (jobId Sample.result))))
  /\ (CACHE_TTL_SECONDS * 1000 < 1000 ->
      disk st' !! j_jobId Sample.job = None
      /\ answer (post_download (JStr Sample.shouted)) st' =
           Return (Queued (uuidSource Scenario.ran (uuidsDrawn Scenario.ran))
                          (statusUrlOf (uuidSource Scenario.ran (uuidsDrawn Scenario.ran))))).
Proof.
  apply (cached_url_before_and_after_ttl Sample.job Sample.url Sample.result
           Scenario.ran Sample.shouted 1000);
    vm_compute; reflexivity.
Defined.

Lemma failed_job_leaves_its_directory_witness :
  let st1 := stateAfter (runJob Sample.job Sample.timedOut) Scenario.taken in
  let st' := stateAfter (elapse 3600000) st1 in
  disk st1 !! j_jobId Sample.job = Some (leftInDir Sample.timedOut)
  /\ timers st1 =
       (timers Scenario.taken
        ++ [mkTimer (now Scenario.taken + 3600000) (ForgetResult (j_jobId Sample.job))])%list
  /\ disk st' !! j_jobId Sample.job = Some (leftInDir Sample.timedOut)
  /\ (3600000 <= 3600000 ->
      answer (get_status (j_jobId Sample.job)) st' =
        Return (InQueue "failed" None (Some "Command failed: gamdl"))).
Proof.
  apply (failed_job_leaves_its_directory Sample.job Sample.timedOut Scenario.taken
           "Command failed: gamdl" 3600000).
  - vm_compute. reflexivity.
  - vm_compute. reflexivity.
  - vm_compute. reflexivity.
  - vm_compute. reflexivity.
  - vm_compute. reflexivity.
  - lia.
Defined.

Lemma second_completion_replaces_the_record_witness :
  let st' := stateAfter (onCompleted Scenario.retry Scenario.retryResult)
               (stateAfter (onCompleted Sample.job Sample.result) Scenario.restarted) in
  redis st' !! getCacheKey Sample.url =
    Some (cacheRecordOf Scenario.retryResult (now Scenario.restarted),
          now Scenario.restarted + CACHE_TTL_SECONDS * 1000)
  /\ answer (post_download (JStr Sample.shouted)) st' =
       Return (FromCache (jobId Scenario.retryResult) (now Scenario.restarted)
                 Scenario.retryResult (statusUrlOf (jobId Scenario.retryResult)))
  /\ In (mkTimer (now Scenario.restarted + CACHE_TTL_SECONDS * 1000)
           (DeleteDownloads (j_jobId Sample.job))) (timers st')
  /\ In (mkTimer (now Scenario.restarted + CACHE_TTL_SECONDS * 1000)
           (DeleteDownloads (j_jobId Scenario.retry))) (timers st').
Proof.
  apply (second_completion_replaces_the_record Sample.job Scenario.retry
           Sample.url Sample.url Sample.result Scenario.retryResult
           Scenario.restarted Sample.shouted);
    vm_compute; reflexivity.
Defined.

Lemma non_string_url_is_turned_away_witness :
  stateAfter (post_download (JArr [JStr "music.apple.com"])) Sample.cached = Sample.cached
  /\ exists status message,
       answer (post_download (JArr [JStr "music.apple.com"])) Sample.cached
       = Return (Rejected status message)
       /\ (truthy (JArr [JStr "music.apple.com"]) = false ->
           status = 400 /\ message = "URL is required")
       /\ (truthy (JArr [JStr "music.apple.com"]) = true ->
           (forall elems, JArr [JStr "music.apple.com"] <> JArr elems) ->
           status = 500 /\ message = "url.includes is not a function")
       /\ (forall elems, JArr [JStr "music.apple.com"] = JArr elems ->
           if List.existsb (isStr "music.apple.com") elems
           then status = 500 /\ message = "url.trim is not a function"
           else status = 400 /\ message = "Invalid Apple Music URL").
Proof.
  apply (non_string_url_is_turned_away (JArr [JStr "music.apple.com"]) Sample.cached).
  intros s. discriminate.
Defined.

Lemma repeated_submission_queues_again_witness :
  let id0 := uuidSource Sample.boot (uuidsDrawn Sample.boot) in
  let id1 := uuidSource Sample.boot (S (uuidsDrawn Sample.boot)) in
  let st1 := stateAfter (post_download (JStr Sample.url)) Sample.boot in
  let st2 := stateAfter (post_download (JStr Sample.url)) st1 in
  answer (post_download (JStr Sample.url)) Sample.boot = Return (Queued id0 (statusUrlOf id0))
  /\ answer (post_download (JStr Sample.url)) st1 = Return (Queued id1 (statusUrlOf id1))
  /\ waiting st2 =
       (waiting Sample.boot ++ [mkJob (JStr Sample.url) id0; mkJob (JStr Sample.url) id1])%list
  /\ active st2 = active Sample.boot
  /\ redis st2 = redis Sample.boot.
Proof.
  apply (repeated_submission_queues_again Sample.url Sample.boot);
    vm_compute; reflexivity.
Defined.

Lemma cache_hit_changes_nothing_witness :
  let st1 := stateAfter (post_download (JStr Sample.url)) Sample.cached in
  st1 = withLog (log Sample.cached ++ [RedisGet (getCacheKey Sample.url)]) Sample.cached
  /\ redis st1 = redis Sample.cached /\ waiting st1 = waiting Sample.cached
  /\ uuidsDrawn st1 = uuidsDrawn Sample.cached
  /\ timers st1 = timers Sample.cached
  /\ answer (post_download (JStr Sample.url)) st1
     = answer (post_download (JStr Sample.url)) Sample.cached.
Proof.
  apply (cache_hit_changes_nothing Sample.url Sample.cached Sample.record);
    vm_compute; reflexivity.
Defined.

Lemma startup_sweep_deletes_by_age_witness :
  let st' := stateAfter (cleanupOldCaches Scenario.mtimes) Scenario.restarted in
  disk st' !! Sample.uuids 0 = None
  /\ disk st' !! Sample.uuids 1 = disk Scenario.restarted !! Sample.uuids 1
  /\ disk Scenario.restarted !! Sample.uuids 0 = Some Scenario.listing
  /\ st' = set_disk (fun _ => disk st') Scenario.restarted.
Proof.
  destruct (startup_sweep_deletes_by_age Scenario.mtimes Scenario.restarted)
    as (_ & Hold & Hyoung & Hrest).
  cbv zeta. split; [|split; [|split]].
  - apply Hold. vm_compute. reflexivity.
  - apply Hyoung. vm_compute. discriminate.
  - vm_compute. reflexivity.
  - exact Hrest.
Defined.

Lemma queue_holds_validated_urls_witness :
  queueIsValid (performAll Scenario.history Sample.boot) = true
  /\ (forall job,
        In job (waiting (performAll Scenario.history Sample.boot)
                ++ active (performAll Scenario.history Sample.boot)) ->
        exists s, j_url job = JStr s /\ passesValidation s = true
                  /\ getCacheKey_js (j_url job) = mret (getCacheKey s)).
Proof.
  apply (queue_holds_validated_urls Scenario.history Sample.boot). reflexivity.
Defined.

Lemma keys_separate_normal_forms_witness :
  getCacheKey Sample.shouted = getCacheKey Sample.url
  /\ getCacheKey "https://music.apple.com/us/album/y/9" <> getCacheKey Sample.url.
Proof.
  destruct keys_separate_normal_forms as (Hkeys & _).
  split.
  - apply Hkeys. reflexivity.
  - intros H. apply Hkeys in H. vm_compute in H. discriminate H.
Defined.

(** The sample history ends with the second job cached and served. *)
Example sample_history :
  let st := performAll Scenario.history Sample.boot in
  answer (post_download (JStr Sample.url)) st =
    Return (FromCache (Sample.uuids 1) 0 Scenario.retryResult (statusUrlOf (Sample.uuids 1)))
  /\ answer get_queue_stats st = Return (Ok (mkQueueStats 0 0 1 1 2))
  /\ answer (get_status (Sample.uuids 0)) st =
       Return (InQueue "failed" None (Some "Command failed: gamdl")).
Proof. vm_compute. repeat split; reflexivity. Qed.

(** * The worker pool *)

Example parseInt_ex :
  parseInt " 12abc" = Integer 12 /\ parseInt "abc" = NaN /\ parseInt "" = NaN
  /\ parseInt "-3" = Integer (-3) /\ parseInt "+7" = Integer 7
  /\ parseInt "2.7" = Integer 2 /\ parseInt "- 5" = NaN
  /\ parseInt "9007199254740991" = Integer MAX_SAFE_INTEGER
  /\ parseInt "9007199254740992" = Inexact.
Proof. repeat split; reflexivity. Qed.

(** Without the variable, or with an empty one, there are five workers. *)
Lemma default_concurrency :
  QUEUE_CONCURRENCY None = Integer 5 /\ QUEUE_CONCURRENCY (Some "") = Integer 5.
Proof. split; reflexivity. Qed.

Lemma post_download_active url st :
  active (stateAfter (post_download url) st) = active st.
Proof.
  unfold stateAfter.
  assert (Hstr : (exists s, url = JStr s) \/ forall s, url <> JStr s).
  { destruct url; try (right; intros s; discriminate). left; eauto. }
  destruct Hstr as [[s ->] | Hns].
  2:{ destruct (post_download_not_a_string url st Hns) as (? & ? & ->). reflexivity. }
  destruct (passesValidation s) eqn:Hv.
  2:{ rewrite (post_download_invalid s st Hv). reflexivity. }
  destruct (redis_lookup (getCacheKey s) st) as [c|] eqn:Hl.
  2:{ rewrite (post_download_miss s st Hv Hl). reflexivity. }
  destruct (fs_exists (c_jobId c) (c_fileName c) st) eqn:Hf.
  - rewrite (post_download_hit s st c Hv Hl Hf). reflexivity.
  - rewrite (post_download_stale s st c Hv Hl Hf). reflexivity.
Qed.

(** No request, timer or lost directory makes a job active. *)
Lemma outside_active op o st :
  outside op = Some o ->
  active (perform o st) = active st \/ active (perform o st) = [].
Proof.
  destruct op; intros [= <-]; cbn [perform].
  - left. apply post_download_active.
  - left. reflexivity.
  - left. reflexivity.
  - right. unfold stateAfter. rewrite post_queue_clear_effect. reflexivity.
  - left. destruct (elapse_stores ms st) as (_ & _ & _ & Ha & _). exact Ha.
  - left. reflexivity.
Qed.

Lemma executing_length (ws : list Worker) : (length (omap id ws) <= length ws)%nat.
Proof.
  induction ws as [|[job|] ws IH]; cbn; lia.
Qed.

Lemma executing_take (ws : list Worker) i job :
  ws !! i = Some None ->
  omap id (<[i := Some job]> ws) ≡ₚ job :: omap id ws.
Proof.
  revert i. induction ws as [|w ws IH]; intros [|i] H; try discriminate.
  - injection H as ->. reflexivity.
  - cbn in H |- *. destruct w as [held|]; cbn.
    + rewrite (IH i H). apply perm_swap.
    + exact (IH i H).
Qed.

Lemma executing_settle (ws : list Worker) i job :
  ws !! i = Some (Some job) ->
  omap id ws ≡ₚ job :: omap id (<[i := None]> ws).
Proof.
  revert i. induction ws as [|w ws IH]; intros [|i] H; try discriminate.
  - injection H as ->. reflexivity.
  - cbn in H |- *. destruct w as [held|]; cbn.
    + rewrite (IH i H). apply perm_swap.
    + exact (IH i H).
Qed.

Lemma filter_submseteq_mono {A} (P : A -> bool) (l k : list A) :
  l ⊆+ k -> List.filter P l ⊆+ List.filter P k.
Proof.
  induction 1 as [|x l k _ IH|x y l|x l k _ IH|l k m _ IH1 _ IH2]; cbn.
  - reflexivity.
  - destruct (P x); [apply submseteq_skip|]; exact IH.
  - destruct (P x), (P y); try reflexivity. apply submseteq_swap.
  - destruct (P x); [apply submseteq_cons|]; exact IH.
  - etrans; eassumption.
Qed.

Lemma filter_submseteq_self {A} (P : A -> bool) (l : list A) :
  List.filter P l ⊆+ l.
Proof.
  induction l as [|x l IH]; cbn; [reflexivity|].
  destruct (P x); [apply submseteq_skip | apply submseteq_cons]; exact IH.
Qed.

(** A settled job leaves the active list and the hands of its worker. *)
Lemma withoutJob_settled job (jobs held rest : list Job) :
  jobs ⊆+ held -> held ≡ₚ job :: rest ->
  withoutJob (j_jobId job) jobs ⊆+ rest.
Proof.
  intros Hsub Hperm. unfold withoutJob.
  assert (Hsub' : jobs ⊆+ job :: rest) by (rewrite <- Hperm; exact Hsub).
  etrans; [exact (filter_submseteq_mono _ _ _ Hsub')|].
  cbn [List.filter]. rewrite String.eqb_refl. cbn [negb].
  apply filter_submseteq_self.
Qed.

(** Every active job is in the hands of a worker: one step. *)
Lemma poolStep_active op p :
  active (server p) ⊆+ executing p ->
  active (server (poolStep op p)) ⊆+ executing (poolStep op p).
Proof.
  intros Hinv.
  assert (Hout : forall o, outside op = Some o ->
            active (server (mkPool (perform o (server p)) (workers p)))
            ⊆+ executing (mkPool (perform o (server p)) (workers p))).
  { intros o Ho. cbn [server]. unfold executing. cbn [workers].
    destruct (outside_active op o (server p) Ho) as [-> | ->].
    - exact Hinv.
    - apply submseteq_nil_l. }
  destruct op as [url | id | | | ms | id | i | i run];
    try (apply Hout; reflexivity).
  - cbn [poolStep]. unfold workerTakes.
    destruct (workers p !! i) as [[held|]|] eqn:Hw; try exact Hinv.
    unfold takeNext. destruct (waiting (server p)) as [|job rest].
    + exact Hinv.
    + cbn [server]. unfold executing. cbn [workers active set_queue].
      rewrite (executing_take _ _ job Hw).
      rewrite <- Permutation_cons_append. apply submseteq_skip. exact Hinv.
  - cbn [poolStep]. unfold workerSettles.
    destruct (workers p !! i) as [[job|]|] eqn:Hw; try exact Hinv.
    cbn [server]. unfold executing. cbn [workers].
    destruct (runJob_queue job run (server p)) as [_ ->].
    exact (withoutJob_settled job _ _ _ Hinv (executing_settle _ _ job Hw)).
Qed.

Lemma poolStep_workers op p :
  length (workers (poolStep op p)) = length (workers p).
Proof.
  destruct op as [url | id | | | ms | id | i | i run]; try reflexivity.
  - cbn [poolStep]. unfold workerTakes.
    destruct (workers p !! i) as [[held|]|]; try reflexivity.
    unfold takeNext. destruct (waiting (server p)); cbn [workers]; [reflexivity|].
    apply length_insert.
  - cbn [poolStep]. unfold workerSettles.
    destruct (workers p !! i) as [[job|]|]; try reflexivity.
    cbn [workers]. apply length_insert.
Qed.

Lemma runPool_invariant ops p :
  active (server p) ⊆+ executing p ->
  active (server (runPool ops p)) ⊆+ executing (runPool ops p)
  /\ length (workers (runPool ops p)) = length (workers p).
Proof.
  unfold runPool. revert p. induction ops as [|op ops IH]; intros p Hinv.
  - split; [exact Hinv | reflexivity].
  - cbn [List.fold_left].
    destruct (IH (poolStep op p) (poolStep_active op p Hinv)) as [Ha Hl].
    split; [exact Ha|]. rewrite Hl. apply poolStep_workers.
Qed.

(** A run of the pool is one of the histories of the server: what is
    proved of all histories holds of what the pool does. *)
Lemma pool_runs_are_histories ops p :
  server (runPool ops p) = performAll (schedule ops p) (server p).
Proof.
  unfold runPool, performAll. revert p.
  induction ops as [|op ops IH]; intros p; [reflexivity|].
  cbn [List.fold_left schedule]. rewrite List.fold_left_app, IH. f_equal.
  destruct op as [url | id | | | ms | id | i | i run]; try reflexivity.
  - cbn [poolStep asOps]. unfold workerTakes.
    destruct (workers p !! i) as [[held|]|]; try reflexivity.
    cbn [List.fold_left perform]. unfold stateAfter.
    destruct (takeNext (server p)) as [[[job|]|message] st']; reflexivity.
  - cbn [poolStep asOps]. unfold workerSettles.
    destruct (workers p !! i) as [[job|]|]; reflexivity.
Qed.

(** C6. With [QUEUE_CONCURRENCY] an integer [W] of at least one and no job
    active when the pool is set up, after any sequence of submissions,
    other requests, timers, lost directories and moves of workers: the
    active jobs are at most [W]; the jobs being executed, one invocation of
    the producer each, are at most [W]; the pool still has its [W] workers;
    every active job is in the hands of a worker; and a worker that holds a
    job takes no other one. *)
Theorem active_jobs_never_exceed_concurrency env W st ops :
  QUEUE_CONCURRENCY env = Integer W ->
  1 <= W ->
  active st = [] ->
  let p := runPool ops (process W st) in
  Z.of_nat (length (active (server p))) <= W
  /\ Z.of_nat (length (executing p)) <= W
  /\ Z.of_nat (length (workers p)) = W
  /\ active (server p) ⊆+ executing p
  /\ (forall i job, workers p !! i = Some (Some job) -> poolStep (Takes i) p = p).
Proof.
  intros _ HW Hidle p.
  assert (Hstart : active (server (process W st)) ⊆+ executing (process W st)).
  { cbn [process server]. rewrite Hidle. apply submseteq_nil_l. }
  destruct (runPool_invariant ops (process W st) Hstart) as [Hinv Hlen].
  fold p in Hinv, Hlen.
  assert (Hworkers : Z.of_nat (length (workers p)) = W).
  { rewrite Hlen. cbn [process workers]. rewrite List.repeat_length. lia. }
  assert (Hexec : Z.of_nat (length (executing p)) <= W).
  { pose proof (executing_length (workers p)) as H. unfold executing. lia. }
  repeat split.
  - apply submseteq_length in Hinv. lia.
  - exact Hexec.
  - exact Hworkers.
  - exact Hinv.
  - intros i job Hbusy. cbn [poolStep]. unfold workerTakes. rewrite Hbusy. reflexivity.
Qed.

(** Two workers and five urls at once: two jobs are active, three wait;
    when a download ends its worker takes the next job. *)
Example burst_on_two_workers :
  let p := runPool Burst.ops (process 2 Burst.boot) in
  List.map j_jobId (active (server p)) = [Burst.ids 0; Burst.ids 2]
  /\ List.map j_jobId (waiting (server p)) = [Burst.ids 3; Burst.ids 4]
  /\ List.map (fun jr => j_jobId (fst jr)) (completed (server p)) = [Burst.ids 1]
  /\ List.map (option_map j_jobId) (workers p) = [Some (Burst.ids 0); Some (Burst.ids 2)].
Proof. vm_compute. repeat split; reflexivity. Qed.

(** The bound is reached: the default pool takes five of six jobs. *)
Example six_on_the_default_pool :
  let p := runPool Burst.six (process 5 Burst.boot) in
  QUEUE_CONCURRENCY None = Integer 5
  /\ length (active (server p)) = 5%nat
  /\ length (waiting (server p)) = 1%nat
  /\ length (active (performAll (schedule Burst.six (process 5 Burst.boot)) Burst.boot)) = 5%nat.
Proof. vm_compute. repeat split; reflexivity. Qed.

Lemma active_jobs_never_exceed_concurrency_witness :
  let p := runPool Burst.ops (process 2 Burst.boot) in
  Z.of_nat (length (active (server p))) <= 2
  /\ Z.of_nat (length (executing p)) <= 2
  /\ Z.of_nat (length (workers p)) = 2
  /\ active (server p) ⊆+ executing p
  /\ (forall i job, workers p !! i = Some (Some job) -> poolStep (Takes i) p = p).
Proof.
  apply (active_jobs_never_exceed_concurrency (Some "2") 2 Burst.boot Burst.ops).
  - reflexivity.
  - lia.
  - reflexivity.
Defined.
